(** * Dog Spotter backend: the dog search and listing service

    A shallow embedding of [src/services/dog.service.ts] (class [DogService])
    together with the collaborators it talks to: the Prisma storage client
    ([prisma.dog.*]), the breed-prediction service
    ([src/services/ml.service.ts]) and the JavaScript [Math] object; and,
    above the service, of the routes of [src/routes/dog.routes.ts] that take
    their input from the path, the query string and the Authorization
    header, with [src/middleware/auth.middleware.ts].

    Conventions.
    - A JavaScript [number] that holds a coordinate or a distance is an IEEE
      754 binary64 value: Rocq's primitive [float].  [NaN], the infinities
      and the two zeros are therefore part of the model.
    - Page numbers, page sizes and row counts are integers ([Z]): the
      integer values of the [number]s the code holds.  The routes obtain them
      with [parseInt]; the arithmetic [findAll] does on them is binary64
      arithmetic, exact up to 2^53 and rounded beyond ([Binary64]).
    - What the specification leaves to the database (how [ILIKE] folds
      case, which texts are UUIDs, in which order rows of equal creation
      time come back) is a parameter of the model ([Database]).
    - [string | undefined] is [option string]; an [if (x)] test on such a
      value is JavaScript truthiness ([truthy]).
    - [async] methods are computations in the monad [M]: they thread the
      [World] (tables, id and time supply, log of collaborator calls) and
      either return or throw. *)

From Stdlib Require Import ZArith QArith Qround Floats Ascii String Lia.
From stdpp Require Import gmap strings list sorting pretty.

Local Open Scope Z_scope.

(** ** JavaScript values *)

Module JS.

(** [if (s)] for [s : string | undefined]: the empty string and [undefined]
    are falsy. *)
Definition truthy (s : option string) : bool :=
  match s with
  | Some s => negb (String.eqb s "")
  | None => false
  end.

(** [if (x)] for a number: [+0], [-0] and [NaN] are falsy. *)
Definition truthy_number (x : float) : bool :=
  negb (is_zero x || is_nan x).

(** The string held by a truthy value. *)
Definition string_of (s : option string) : string := default "" s.

(** [a || b] on strings, as in [input.status || 'encontrado']. *)
Definition or_else (s : option string) (d : string) : string :=
  match s with
  | Some s => if String.eqb s "" then d else s
  | None => d
  end.

(** [hay.includes(needle)] *)
Fixpoint includes (needle hay : string) : bool :=
  String.prefix needle hay ||
  match hay with
  | EmptyString => false
  | String _ hay' => includes needle hay'
  end.

End JS.

(** ** The [Math] object

    [Math.PI] is the binary64 number nearest to pi, and [Math.sqrt] is the
    correctly rounded square root of the hardware.  ECMA-262 leaves
    [Math.sin], [Math.cos] and [Math.atan2] implementation-approximated and
    only pins them down at special arguments; the interface below records
    the functions an engine provides and the facts about them that the
    service relies on. *)

Definition Math_PI : float := 0x1.921fb54442d18p+1%float.

Definition Math_sqrt (x : float) : float := PrimFloat.sqrt x.

Class MathObject := {
  Math_sin : float -> float;
  Math_cos : float -> float;
  Math_atan2 : float -> float -> float;
  (** ECMA-262 21.3.2.30: sin(NaN) is NaN, sin(+0) is +0. *)
  sin_nan : Math_sin nan = nan;
  sin_zero : Math_sin 0%float = 0%float;
  (** A cosine of a finite argument lies in [-1, 1]. *)
  cos_range : forall x, is_finite x = true ->
    ((-1 <=? Math_cos x) && (Math_cos x <=? 1))%float = true;
  (** ECMA-262 21.3.2.8: atan2(NaN, x) is NaN; atan2(+0, x) is +0 for x > 0. *)
  atan2_nan : forall x, Math_atan2 nan x = nan;
  atan2_zero : forall x, (0 <? x)%float = true -> Math_atan2 0%float x = 0%float
}.

(** A small-angle implementation of the interface: the leading terms of the
    Taylor series, the cosine clamped to its range.  It is accurate for a
    few degrees only; it is used to run the service on concrete inputs. *)
Definition approx_sin (x : float) : float :=
  (x - x * x * x / 6)%float.

Definition approx_cos (x : float) : float :=
  let p := (1 - x * x / 2 + x * x * x * x / 24)%float in
  if ((-1 <=? p) && (p <=? 1))%float then p else 1%float.

Definition approx_atan2 (y x : float) : float :=
  let t := (y / x)%float in
  (t - t * t * t / 3)%float.

(** ** Great-circle distance *)

Section Distance.
Context `{MathObject}.

(** [DogService.toRad] *)
Definition toRad (deg : float) : float :=
  (deg * (Math_PI / 180))%float.

(** [DogService.calculateDistance]: the Haversine formula. *)
Definition calculateDistance (lat1 lon1 lat2 lon2 : float) : float :=
  let R := 6371%float in
  let dLat := toRad (lat2 - lat1) in
  let dLon := toRad (lon2 - lon1) in
  let a :=
    (Math_sin (dLat / 2) * Math_sin (dLat / 2) +
     Math_cos (toRad lat1) *
       Math_cos (toRad lat2) *
       Math_sin (dLon / 2) *
       Math_sin (dLon / 2))%float in
  let c := (2 * Math_atan2 (Math_sqrt a) (Math_sqrt (1 - a)))%float in
  (R * c)%float.

End Distance.

(** ** Numbers of the pagination arithmetic

    [total / limit] on integers, and [Math.ceil] of the quotient.  A division
    by zero yields an infinity or [NaN], as in JavaScript; the sign of a zero
    result is not tracked. *)

Module Num.

Inductive t :=
  | Finite (q : Q)
  | Infinity (negative : bool)
  | NaN.

Definition of_int (z : Z) : t := Finite (inject_Z z).

Definition div (a b : Z) : t :=
  if b =? 0 then
    if a =? 0 then NaN else Infinity (a <? 0)
  else Finite (inject_Z a / inject_Z b)%Q.

Definition Math_ceil (x : t) : t :=
  match x with
  | Finite q => of_int (Qceiling q)
  | _ => x
  end.

End Num.

(** ** Binary64 arithmetic on integers

    [(page - 1) * limit] is computed on [number]s.  On integers the result
    of a binary64 operation is the exact result rounded to 53 significant
    bits, ties to the even significand.  The exponent range is not
    modelled: it is left only by products beyond 2^1023. *)

Module Binary64.

(** The nearest integer with at most 53 significant bits. *)
Definition round (z : Z) : Z :=
  let a := Z.abs z in
  let e := Z.log2 a - 52 in
  if e <=? 0 then z
  else
    let q := Z.shiftr a e in
    let r := Z.land a (Z.ones e) in
    let half := Z.shiftl 1 (e - 1) in
    let q' :=
      if r <? half then q
      else if half <? r then q + 1
      else if Z.even q then q else q + 1 in
    Z.sgn z * Z.shiftl q' e.

(** [a - b] and [a * b] on [number]s that hold integers. *)
Definition sub (a b : Z) : Z := round (a - b).
Definition mul (a b : Z) : Z := round (a * b).

(** The integer a primitive binary64 value holds, if it holds one. *)
Definition integer_of (x : float) : option Z :=
  match Prim2SF x with
  | S754_zero _ => Some 0
  | S754_finite s m e =>
      let sign := if s then -1 else 1 in
      if 0 <=? e then Some (sign * Zpos m * 2 ^ e)
      else if Z.land (Zpos m) (Z.ones (- e)) =? 0
           then Some (sign * Z.shiftr (Zpos m) (- e))
           else None
  | _ => None
  end.

End Binary64.

(** ** Data model: the [users] and [dogs] tables *)

Module User.
Record t := {
  id : string;
  email : string;
  password : string;
  name : option string;
  avatar : option string
}.
End User.

Module Dog.
Record t := {
  id : string;
  description : string;
  imageUrl : option string;
  latitude : float;
  longitude : float;
  breed : option string;
  color : option string;
  size : option string;
  status : string;
  createdAt : Z;
  updatedAt : Z;
  userId : string
}.
End Dog.

(** The argument types of the service. *)

Module CreateDogInput.
Record t := {
  description : string;
  imageUrl : option string;
  latitude : float;
  longitude : float;
  breed : option string;
  color : option string;
  size : option string;
  status : option string;
  userId : string
}.
End CreateDogInput.

Module UpdateDogInput.
Record t := {
  description : option string;
  imageUrl : option string;
  latitude : option float;
  longitude : option float;
  breed : option string;
  color : option string;
  size : option string;
  status : option string
}.

(** The object literal [{ breed: b }]. *)
Definition only_breed (b : string) : t :=
  {| description := None; imageUrl := None; latitude := None;
     longitude := None; breed := Some b; color := None; size := None;
     status := None |}.
End UpdateDogInput.

Module SearchFilters.
Record t := {
  query : option string;
  status : option string;
  size : option string;
  breed : option string;
  latitude : option float;
  longitude : option float;
  radiusKm : option float
}.

(** [{ ...filters, key: v }] for the four text filters. *)
Definition with_query (v : option string) (f : t) : t :=
  {| query := v; status := status f; size := size f; breed := breed f;
     latitude := latitude f; longitude := longitude f; radiusKm := radiusKm f |}.
Definition with_status (v : option string) (f : t) : t :=
  {| query := query f; status := v; size := size f; breed := breed f;
     latitude := latitude f; longitude := longitude f; radiusKm := radiusKm f |}.
Definition with_size (v : option string) (f : t) : t :=
  {| query := query f; status := status f; size := v; breed := breed f;
     latitude := latitude f; longitude := longitude f; radiusKm := radiusKm f |}.
Definition with_breed (v : option string) (f : t) : t :=
  {| query := query f; status := status f; size := size f; breed := v;
     latitude := latitude f; longitude := longitude f; radiusKm := radiusKm f |}.
End SearchFilters.

Module Bounds.
Record t := { north : float; south : float; east : float; west : float }.
End Bounds.

(** ** The storage collaborator: Prisma's [dog] delegate

    The client the service imports from [../config/database] is not among
    the sources.  Its operations are modelled on the two tables held in
    memory, after the storage contract of the specification (section 6) and
    the schema ([prisma/schema.sql]). *)

(** [{ contains: s, mode: 'insensitive' }] *)
Inductive StringFilter :=
  | contains_insensitive (s : string).

(** [{ gte: a, lte: b }] *)
Record FloatFilter := { gte : float; lte : float }.

(** The [where] object.  A key that was never assigned is [None]; the keys
    that are present are conjoined, the alternatives of [OR] disjoined. *)
Module DogWhereInput.
#[warnings="-register-all"]
Inductive t := mk {
  OR : option (list t);
  id : option string;
  userId : option string;
  status : option string;
  size : option string;
  description : option StringFilter;
  breed : option StringFilter;
  color : option StringFilter;
  latitude : option FloatFilter;
  longitude : option FloatFilter
}.

(** [{}] *)
Definition empty : t := mk None None None None None None None None None None.

(** [where.key = value], one setter for each key the service assigns. *)
Definition set_OR (v : list t) (w : t) : t :=
  mk (Some v) (id w) (userId w) (status w) (size w) (description w)
     (breed w) (color w) (latitude w) (longitude w).
Definition set_id (v : string) (w : t) : t :=
  mk (OR w) (Some v) (userId w) (status w) (size w) (description w)
     (breed w) (color w) (latitude w) (longitude w).
Definition set_userId (v : string) (w : t) : t :=
  mk (OR w) (id w) (Some v) (status w) (size w) (description w)
     (breed w) (color w) (latitude w) (longitude w).
Definition set_status (v : string) (w : t) : t :=
  mk (OR w) (id w) (userId w) (Some v) (size w) (description w)
     (breed w) (color w) (latitude w) (longitude w).
Definition set_size (v : string) (w : t) : t :=
  mk (OR w) (id w) (userId w) (status w) (Some v) (description w)
     (breed w) (color w) (latitude w) (longitude w).
Definition set_description (v : StringFilter) (w : t) : t :=
  mk (OR w) (id w) (userId w) (status w) (size w) (Some v)
     (breed w) (color w) (latitude w) (longitude w).
Definition set_breed (v : StringFilter) (w : t) : t :=
  mk (OR w) (id w) (userId w) (status w) (size w) (description w)
     (Some v) (color w) (latitude w) (longitude w).
Definition set_color (v : StringFilter) (w : t) : t :=
  mk (OR w) (id w) (userId w) (status w) (size w) (description w)
     (breed w) (Some v) (latitude w) (longitude w).
Definition set_latitude (v : FloatFilter) (w : t) : t :=
  mk (OR w) (id w) (userId w) (status w) (size w) (description w)
     (breed w) (color w) (Some v) (longitude w).
Definition set_longitude (v : FloatFilter) (w : t) : t :=
  mk (OR w) (id w) (userId w) (status w) (size w) (description w)
     (breed w) (color w) (latitude w) (Some v).
End DogWhereInput.

Inductive SortOrder := asc | desc.

(** The arguments of [findMany]; the only sort key in use is [createdAt].
    ([where] is reserved, hence [where_].) *)
Module FindManyArgs.
Record t := {
  where_ : option DogWhereInput.t;
  orderBy : option SortOrder;
  skip : option Z;
  take : option Z
}.
End FindManyArgs.

(** What a query returns for a row: [include: { user: { select } }] adds
    the selected columns of the owner, [select] keeps some columns only. *)
Module UserIdNameEmail.
Record t := { id : string; name : option string; email : string }.
End UserIdNameEmail.

Module UserIdName.
Record t := { id : string; name : option string }.
End UserIdName.

Record DogWith (U : Type) := { row : Dog.t; user : option U }.
Arguments row {U} _.
Arguments user {U} _.

Module Marker.
Record t := {
  id : string;
  latitude : float;
  longitude : float;
  imageUrl : option string;
  description : string;
  status : string;
  breed : option string;
  createdAt : Z
}.
End Marker.

(** What a rejected promise carries. *)
Inductive Exception :=
  | Error (message : string)
  | PrismaClientKnownRequestError (code : string)
  | PrismaClientValidationError
  | JsonWebTokenError (message : string).

(** A record of every call made to a collaborator. *)
Inductive Call :=
  | dog_create (data : CreateDogInput.t)
  | dog_update (id : string) (data : UpdateDogInput.t)
  | dog_delete (id : string)
  | dog_findUnique (id : string)
  | dog_findFirst (w : DogWhereInput.t)
  | dog_findMany (args : FindManyArgs.t)
  | dog_count
  | ml_predictBreed (imageUrl dogId : string).

(** The state a request runs against: the two tables, the ids
    [gen_random_uuid()] will hand out, the server clock and the call log. *)
Record World := {
  dogs : gmap string Dog.t;
  users : gmap string User.t;
  uuid : nat -> string;
  issued : nat;
  now : Z;
  calls : list Call
}.

Inductive Result (A : Type) :=
  | Return (a : A)
  | Throw (e : Exception).
Arguments Return {A} _.
Arguments Throw {A} _.

(** An [async] computation. *)
Definition M (A : Type) : Type := World -> Result A * World.

#[global] Instance M_ret : MRet M := fun A a w => (Return a, w).

#[global] Instance M_bind : MBind M := fun A B f m w =>
  match m w with
  | (Return a, w') => f a w'
  | (Throw e, w') => (Throw e, w')
  end.

Definition throw {A} (e : Exception) : M A := fun w => (Throw e, w).

(** [await] of a promise that has settled. *)
Definition settle {A} (r : Result A) : M A := fun w => (r, w).

(** [await Promise.all([a, b])]: both operations are started, so both leave
    their mark on the world; the result is the first rejection, if any. *)
Definition Promise_all {A B} (a : M A) (b : M B) : M (A * B) := fun w =>
  let (ra, w1) := a w in
  let (rb, w2) := b w1 in
  match ra, rb with
  | Return x, Return y => (Return (x, y), w2)
  | Throw e, _ => (Throw e, w2)
  | Return _, Throw e => (Throw e, w2)
  end.

(** [try { body } catch (error) { handler }] *)
Definition try_catch {A} (body : M A) (handler : Exception -> M A) : M A :=
  fun w =>
    match body w with
    | (Return a, w') => (Return a, w')
    | (Throw e, w') => handler e w'
    end.

Definition get {A} (f : World -> A) : M A := fun w => (Return (f w), w).

Definition log (c : Call) : M unit := fun w =>
  (Return tt,
   {| dogs := dogs w; users := users w; uuid := uuid w; issued := issued w;
      now := now w; calls := calls w ++ [c] |}).

Definition modify (f : World -> World) : M unit := fun w => (Return tt, f w).

Definition with_dogs (f : gmap string Dog.t -> gmap string Dog.t) (w : World) : World :=
  {| dogs := f (dogs w); users := users w; uuid := uuid w; issued := issued w;
     now := now w; calls := calls w |}.

(** The column default [gen_random_uuid()]. *)
Definition gen_random_uuid : M string := fun w =>
  (Return (uuid w (issued w)),
   {| dogs := dogs w; users := users w; uuid := uuid w; issued := S (issued w);
      now := now w; calls := calls w |}).

(** The column default [CURRENT_TIMESTAMP]; the clock moves on by a
    millisecond with every reading. *)
Definition CURRENT_TIMESTAMP : M Z := fun w =>
  (Return (now w),
   {| dogs := dogs w; users := users w; uuid := uuid w; issued := issued w;
      now := now w + 1; calls := calls w |}).

(** *** The database *)

(** [orderBy: { createdAt: 'desc' }] *)
Definition newest_first (a b : Dog.t) : Prop :=
  Dog.createdAt b <= Dog.createdAt a.

(** [orderBy: { createdAt: 'asc' }] *)
Definition oldest_first (a b : Dog.t) : Prop :=
  Dog.createdAt a <= Dog.createdAt b.

#[global] Instance newest_first_dec a b : Decision (newest_first a b) :=
  Z_le_dec (Dog.createdAt b) (Dog.createdAt a).

#[global] Instance oldest_first_dec a b : Decision (oldest_first a b) :=
  Z_le_dec (Dog.createdAt a) (Dog.createdAt b).

#[global] Instance newest_first_total : Total newest_first.
Proof. intros a b. unfold newest_first. lia. Qed.

#[global] Instance newest_first_trans : Transitive newest_first.
Proof. intros a b c. unfold newest_first. lia. Qed.

#[global] Instance oldest_first_total : Total oldest_first.
Proof. intros a b. unfold oldest_first. lia. Qed.

#[global] Instance oldest_first_trans : Transitive oldest_first.
Proof. intros a b c. unfold oldest_first. lia. Qed.

Definition in_order (o : SortOrder) : relation Dog.t :=
  match o with
  | desc => newest_first
  | asc => oldest_first
  end.

(** What the storage contract leaves to the database.
    - [lower]: the case folding by which [ILIKE] compares; it depends on
      the encoding and the locale of the database.
    - [is_uuid]: the texts the type UUID accepts.
    - [order_by]: the rows in the order the [n]-th query returns them under
      [ORDER BY "createdAt"].  Rows of equal creation time may come in any
      order, and not in the same one from one query to the next. *)
Class Database := {
  lower : string -> string;
  is_uuid : string -> bool;
  order_by : nat -> SortOrder -> list Dog.t -> list Dog.t;
  order_by_Permutation : forall n o rows, order_by n o rows ≡ₚ rows;
  order_by_sorted : forall n o rows, StronglySorted (in_order o) (order_by n o rows)
}.

(** [char_length(s)] of a UTF-8 text: the bytes that begin a character. *)
Definition char_length (s : string) : nat :=
  length (List.filter
            (fun c => negb ((128 <=? nat_of_ascii c) && (nat_of_ascii c <? 192))%nat)
            (list_ascii_of_string s)).

(** A value fits a column of type [VARCHAR(n)]. *)
Definition VARCHAR (n : nat) (v : option string) : bool :=
  match v with
  | Some s => (char_length s <=? n)%nat
  | None => true
  end.

Section Storage.
Context {db : Database}.

(** *** Predicates *)

Definition string_filter_matches (f : StringFilter) (v : option string) : bool :=
  match f, v with
  | contains_insensitive s, Some v => JS.includes (lower s) (lower v)
  | contains_insensitive _, None => false
  end.

Definition equals_matches (s : string) (v : option string) : bool :=
  match v with
  | Some v => String.eqb s v
  | None => false
  end.

Definition float_filter_matches (f : FloatFilter) (v : float) : bool :=
  ((gte f <=? v) && (v <=? lte f))%float.

(** A key that is absent from the [where] object constrains nothing. *)
Definition if_present {A} (o : option A) (p : A -> bool) : bool :=
  match o with
  | Some a => p a
  | None => true
  end.

(** Modelled from the spec: the predicate language of the storage client,
    "exact-match equality, case-insensitive substring, numeric range
    (gte/lte), and logical OR/AND composition". *)
Fixpoint matches (w : DogWhereInput.t) (d : Dog.t) {struct w} : bool :=
  match w with
  | DogWhereInput.mk or id userId status size description breed color
      latitude longitude =>
      match or with
      | Some alternatives => existsb (fun w' => matches w' d) alternatives
      | None => true
      end
      && if_present id (fun v => String.eqb v (Dog.id d))
      && if_present userId (fun v => String.eqb v (Dog.userId d))
      && if_present status (fun v => String.eqb v (Dog.status d))
      && if_present size (fun v => equals_matches v (Dog.size d))
      && if_present description
           (fun f => string_filter_matches f (Some (Dog.description d)))
      && if_present breed (fun f => string_filter_matches f (Dog.breed d))
      && if_present color (fun f => string_filter_matches f (Dog.color d))
      && if_present latitude (fun f => float_filter_matches f (Dog.latitude d))
      && if_present longitude (fun f => float_filter_matches f (Dog.longitude d))
  end.

(** The rows of the table that satisfy [where]. *)
Definition select_rows (w : option DogWhereInput.t) (t : gmap string Dog.t)
  : list Dog.t :=
  List.filter (fun d => if_present w (fun w => matches w d)) (map_to_list t).*2.

(** *** Ordering and windowing *)

(** The rows as the [query]-th query orders them. *)
Definition order_rows (query : nat) (o : option SortOrder) (rows : list Dog.t)
  : list Dog.t :=
  match o with
  | Some o => order_by query o rows
  | None => rows
  end.

(** [skip] rows are passed over, then [take] rows are kept; a negative
    [take] counts from the end of the ordered rows. *)
Definition window {A} (skip : Z) (take : option Z) (rows : list A) : list A :=
  match take with
  | None => drop (Z.to_nat skip) rows
  | Some n =>
      if 0 <=? n then firstn (Z.to_nat n) (drop (Z.to_nat skip) rows)
      else reverse (firstn (Z.to_nat (- n)) (drop (Z.to_nat skip) (reverse rows)))
  end.

(** *** Projections *)

Definition select_id_name_email (u : User.t) : UserIdNameEmail.t :=
  {| UserIdNameEmail.id := User.id u;
     UserIdNameEmail.name := User.name u;
     UserIdNameEmail.email := User.email u |}.

Definition select_id_name (u : User.t) : UserIdName.t :=
  {| UserIdName.id := User.id u; UserIdName.name := User.name u |}.

(** [include: { user: { select } }]; the foreign key makes the owner exist. *)
Definition include_user {U} (select : User.t -> U) (w : World) (d : Dog.t)
  : DogWith U :=
  {| row := d; user := select <$> users w !! Dog.userId d |}.

(** No [include], no [select]: the row itself. *)
Definition plain (w : World) (d : Dog.t) : Dog.t := d.

(** The [select] of [getForMap]. *)
Definition select_marker (w : World) (d : Dog.t) : Marker.t :=
  {| Marker.id := Dog.id d;
     Marker.latitude := Dog.latitude d;
     Marker.longitude := Dog.longitude d;
     Marker.imageUrl := Dog.imageUrl d;
     Marker.description := Dog.description d;
     Marker.status := Dog.status d;
     Marker.breed := Dog.breed d;
     Marker.createdAt := Dog.createdAt d |}.

(** *** Operations *)

Definition new_row (id : string) (t : Z) (data : CreateDogInput.t) : Dog.t :=
  {| Dog.id := id;
     Dog.description := CreateDogInput.description data;
     Dog.imageUrl := CreateDogInput.imageUrl data;
     Dog.latitude := CreateDogInput.latitude data;
     Dog.longitude := CreateDogInput.longitude data;
     Dog.breed := CreateDogInput.breed data;
     Dog.color := CreateDogInput.color data;
     Dog.size := CreateDogInput.size data;
     Dog.status := default "encontrado" (CreateDogInput.status data);
     Dog.createdAt := t;
     Dog.updatedAt := t;
     Dog.userId := CreateDogInput.userId data |}.

(** A key whose value is [undefined] leaves its column alone. *)
Definition apply_update (data : UpdateDogInput.t) (t : Z) (d : Dog.t) : Dog.t :=
  {| Dog.id := Dog.id d;
     Dog.description := default (Dog.description d) (UpdateDogInput.description data);
     Dog.imageUrl := from_option Some (Dog.imageUrl d) (UpdateDogInput.imageUrl data);
     Dog.latitude := default (Dog.latitude d) (UpdateDogInput.latitude data);
     Dog.longitude := default (Dog.longitude d) (UpdateDogInput.longitude data);
     Dog.breed := from_option Some (Dog.breed d) (UpdateDogInput.breed data);
     Dog.color := from_option Some (Dog.color d) (UpdateDogInput.color data);
     Dog.size := from_option Some (Dog.size d) (UpdateDogInput.size data);
     Dog.status := default (Dog.status d) (UpdateDogInput.status data);
     Dog.createdAt := Dog.createdAt d;
     Dog.updatedAt := t;
     Dog.userId := Dog.userId d |}.

(** The widths of the columns of [dogs] ([prisma/schema.sql]). *)
Definition create_fits (data : CreateDogInput.t) : bool :=
  VARCHAR 500 (CreateDogInput.imageUrl data)
  && VARCHAR 100 (CreateDogInput.breed data)
  && VARCHAR 100 (CreateDogInput.color data)
  && VARCHAR 20 (CreateDogInput.size data)
  && VARCHAR 20 (CreateDogInput.status data).

Definition update_fits (data : UpdateDogInput.t) : bool :=
  VARCHAR 500 (UpdateDogInput.imageUrl data)
  && VARCHAR 100 (UpdateDogInput.breed data)
  && VARCHAR 100 (UpdateDogInput.color data)
  && VARCHAR 20 (UpdateDogInput.size data)
  && VARCHAR 20 (UpdateDogInput.status data).

(** Modelled from the spec: [prisma.dog.create] of the storage client
    ([config/database], missing), "create(fields) -> record".  The id and
    the timestamps are server-assigned; the widths of the columns, the
    foreign key and the primary key of the schema are enforced (errors
    P2000, P2003 and P2002). *)
Definition prisma_dog_create {A} (data : CreateDogInput.t)
    (proj : World -> Dog.t -> A) : M A :=
  _ ← log (dog_create data);
  w ← get (fun w => w);
  if negb (create_fits data) then throw (PrismaClientKnownRequestError "P2000")
  else
  match users w !! CreateDogInput.userId data with
  | None => throw (PrismaClientKnownRequestError "P2003")
  | Some _ =>
      id ← gen_random_uuid;
      match dogs w !! id with
      | Some _ => throw (PrismaClientKnownRequestError "P2002")
      | None =>
          t ← CURRENT_TIMESTAMP;
          let row := new_row id t data in
          _ ← modify (with_dogs (insert id row));
          w' ← get (fun w => w);
          mret (proj w' row)
      end
  end.

(** Modelled from the spec: [prisma.dog.update({ where: { id }, data })]
    of the storage client ([config/database], missing), "update(id, patch)
    -> record"; error P2025 when no row has the id, error P2000 when a
    value is too long for its column. *)
Definition prisma_dog_update {A} (id : string) (data : UpdateDogInput.t)
    (proj : World -> Dog.t -> A) : M A :=
  _ ← log (dog_update id data);
  w ← get (fun w => w);
  match dogs w !! id with
  | None => throw (PrismaClientKnownRequestError "P2025")
  | Some d =>
      if negb (update_fits data) then throw (PrismaClientKnownRequestError "P2000")
      else
      t ← CURRENT_TIMESTAMP;
      let row := apply_update data t d in
      _ ← modify (with_dogs (insert id row));
      w' ← get (fun w => w);
      mret (proj w' row)
  end.

(** Modelled from the spec: [prisma.dog.delete({ where: { id } })] of the
    storage client ([config/database], missing), "delete(id) -> void";
    error P2025 when no row has the id. *)
Definition prisma_dog_delete (id : string) : M Dog.t :=
  _ ← log (dog_delete id);
  w ← get (fun w => w);
  match dogs w !! id with
  | None => throw (PrismaClientKnownRequestError "P2025")
  | Some d =>
      _ ← modify (with_dogs (delete id));
      mret d
  end.

(** Modelled from the spec: [prisma.dog.findUnique({ where: { id } })] of
    the storage client ([config/database], missing), "findUnique(id) ->
    record | absent".  The column is of type UUID: an id that is stored is
    one, and a text that is none makes the lookup throw (error P2023). *)
Definition prisma_dog_findUnique {A} (id : string)
    (proj : World -> Dog.t -> A) : M (option A) :=
  _ ← log (dog_findUnique id);
  w ← get (fun w => w);
  match dogs w !! id with
  | Some d => mret (Some (proj w d))
  | None =>
      if is_uuid id then mret None
      else throw (PrismaClientKnownRequestError "P2023")
  end.

(** Modelled from the spec: [prisma.dog.findFirst({ where })] of the
    storage client ([config/database], missing), "findFirst(predicate) ->
    record | absent". *)
Definition prisma_dog_findFirst (w : DogWhereInput.t) : M (option Dog.t) :=
  _ ← log (dog_findFirst w);
  t ← get dogs;
  mret (head (select_rows (Some w) t)).

(** Modelled from the spec: [prisma.dog.findMany] of the storage client
    ([config/database], missing), "findMany(predicate, ordering,
    pagination) -> sequence": select, order, window, project.  A negative
    [skip] is refused.  The order is the one the database gives this
    query, the [n]-th of the calls made so far. *)
Definition prisma_dog_findMany {A} (args : FindManyArgs.t)
    (proj : World -> Dog.t -> A) : M (list A) :=
  _ ← log (dog_findMany args);
  w ← get (fun w => w);
  let skip := default 0 (FindManyArgs.skip args) in
  if skip <? 0 then throw PrismaClientValidationError
  else
    mret (proj w <$>
          window skip (FindManyArgs.take args)
            (order_rows (length (calls w)) (FindManyArgs.orderBy args)
               (select_rows (FindManyArgs.where_ args) (dogs w)))).

(** Modelled from the spec: [prisma.dog.count()] of the storage client
    ([config/database], missing), "count(predicate) -> integer". *)
Definition prisma_dog_count : M Z :=
  _ ← log dog_count;
  t ← get dogs;
  mret (Z.of_nat (size t)).

End Storage.

(** ** The breed-prediction collaborator ([ml.service.ts]) *)

Module PredictionResult.
Record t := {
  breed : option string;
  confidence : option float;
  error : option string
}.
End PredictionResult.

(** What [DogService] needs of the collaborator: a call either resolves to a
    prediction or rejects. *)
Class MLService := {
  predictBreed : string -> string -> Result PredictionResult.t
}.

(** The HTTP exchange behind [MLService.predictBreed]: [fetch] rejects, or
    resolves to a response whose body may or may not parse as JSON. *)
Module Fetch.
Record json := {
  result : option string;
  confidence : option float;
  error : option string
}.
Inductive outcome :=
  | rejects
  | response (ok : bool) (body : option json).
End Fetch.

(** [MLService.predictBreed]: every failure of the exchange is caught and
    turned into a prediction without a breed. *)
Definition MLService_predictBreed (fetch : string -> string -> Fetch.outcome)
    (imageUrl dogId : string) : Result PredictionResult.t :=
  let unavailable :=
    {| PredictionResult.breed := None;
       PredictionResult.confidence := None;
       PredictionResult.error := Some "ML Service unavailable" |} in
  match fetch dogId imageUrl with
  | Fetch.rejects => Return unavailable
  | Fetch.response _ None => Return unavailable
  | Fetch.response false (Some errorData) =>
      Return {| PredictionResult.breed := None;
                PredictionResult.confidence := None;
                PredictionResult.error :=
                  Some (JS.or_else (Fetch.error errorData) "Prediction failed") |}
  | Fetch.response true (Some data) =>
      Return {| PredictionResult.breed :=
                  if JS.truthy (Fetch.result data) then Fetch.result data else None;
                PredictionResult.confidence := Fetch.confidence data;
                PredictionResult.error := None |}
  end.

Definition http_MLService (fetch : string -> string -> Fetch.outcome) : MLService :=
  {| predictBreed := MLService_predictBreed fetch |}.

(** ** The service ([dog.service.ts]) *)

Module Pagination.
Record t := {
  page : Z;
  limit : Z;
  total : Z;
  totalPages : Num.t
}.
End Pagination.

Module DogPage.
Record t := {
  dogs : list (DogWith UserIdName.t);
  pagination : Pagination.t
}.
End DogPage.

Module DogService.
Section Methods.
Context {math : MathObject} {mlService : MLService} {db : Database}.

(** [await mlService.predictBreed(imageUrl, dogId)] *)
Definition mlService_predictBreed (imageUrl dogId : string)
  : M PredictionResult.t :=
  _ ← log (ml_predictBreed imageUrl dogId);
  settle (predictBreed imageUrl dogId).

(** The [data] object of [create]. *)
Definition create_data (input : CreateDogInput.t) : CreateDogInput.t :=
  {| CreateDogInput.description := CreateDogInput.description input;
     CreateDogInput.imageUrl := CreateDogInput.imageUrl input;
     CreateDogInput.latitude := CreateDogInput.latitude input;
     CreateDogInput.longitude := CreateDogInput.longitude input;
     CreateDogInput.breed := CreateDogInput.breed input;
     CreateDogInput.color := CreateDogInput.color input;
     CreateDogInput.size := CreateDogInput.size input;
     CreateDogInput.status :=
       Some (JS.or_else (CreateDogInput.status input) "encontrado");
     CreateDogInput.userId := CreateDogInput.userId input |}.

Definition create (input : CreateDogInput.t) : M (DogWith UserIdNameEmail.t) :=
  (* Create the dog first *)
  dog ← prisma_dog_create (create_data input)
    (include_user select_id_name_email);
  (* If image is provided but no breed, try to predict breed using ML *)
  if JS.truthy (CreateDogInput.imageUrl input)
     && negb (JS.truthy (CreateDogInput.breed input)) then
    try_catch
      (prediction ← mlService_predictBreed
         (JS.string_of (CreateDogInput.imageUrl input)) (Dog.id (row dog));
       if JS.truthy (PredictionResult.breed prediction) then
         (* Update the dog with predicted breed *)
         prisma_dog_update (Dog.id (row dog))
           (UpdateDogInput.only_breed
              (JS.string_of (PredictionResult.breed prediction)))
           (include_user select_id_name_email)
       else mret dog)
      (* ML prediction is optional, don't fail the dog creation *)
      (fun error => mret dog)
  else mret dog.

Definition findById (id : string) : M (option (DogWith UserIdNameEmail.t)) :=
  prisma_dog_findUnique id (include_user select_id_name_email).

Definition findAll (page limit : option Z) : M DogPage.t :=
  let page := default 1 page in
  let limit := default 50 limit in
  let skip := Binary64.mul (Binary64.sub page 1) limit in
  '(dogs, total) ← Promise_all
    (prisma_dog_findMany
       {| FindManyArgs.where_ := None;
          FindManyArgs.orderBy := Some desc;
          FindManyArgs.skip := Some skip;
          FindManyArgs.take := Some limit |}
       (include_user select_id_name))
    prisma_dog_count;
  mret {| DogPage.dogs := dogs;
          DogPage.pagination :=
            {| Pagination.page := page;
               Pagination.limit := limit;
               Pagination.total := total;
               Pagination.totalPages := Num.Math_ceil (Num.div total limit) |} |}.

(** The [where] object [search] builds from its filters. *)
Definition search_where (filters : SearchFilters.t) : DogWhereInput.t :=
  let query := SearchFilters.query filters in
  let status := SearchFilters.status filters in
  let size := SearchFilters.size filters in
  let breed := SearchFilters.breed filters in
  let where0 := DogWhereInput.empty in
  let where1 :=
    if JS.truthy query then
      DogWhereInput.set_OR
        [ DogWhereInput.set_description
            (contains_insensitive (JS.string_of query)) DogWhereInput.empty;
          DogWhereInput.set_breed
            (contains_insensitive (JS.string_of query)) DogWhereInput.empty;
          DogWhereInput.set_color
            (contains_insensitive (JS.string_of query)) DogWhereInput.empty ]
        where0
    else where0 in
  let where2 :=
    if JS.truthy status then DogWhereInput.set_status (JS.string_of status) where1
    else where1 in
  let where3 :=
    if JS.truthy size then DogWhereInput.set_size (JS.string_of size) where2
    else where2 in
  if JS.truthy breed then
    DogWhereInput.set_breed (contains_insensitive (JS.string_of breed)) where3
  else where3.

(** [{ id, userId }] *)
Definition owned_by (id userId : string) : DogWhereInput.t :=
  DogWhereInput.set_userId userId (DogWhereInput.set_id id DogWhereInput.empty).

(** The test of the radius filter: [distance <= radiusKm]. *)
Definition within (latitude longitude radiusKm : float)
    (dog : DogWith UserIdName.t) : bool :=
  let distance :=
    calculateDistance latitude longitude
      (Dog.latitude (row dog)) (Dog.longitude (row dog)) in
  (distance <=? radiusKm)%float.

Definition search (filters : SearchFilters.t) : M (list (DogWith UserIdName.t)) :=
  let where_ := search_where filters in
  dogs ← prisma_dog_findMany
    {| FindManyArgs.where_ := Some where_;
       FindManyArgs.orderBy := Some desc;
       FindManyArgs.skip := None;
       FindManyArgs.take := None |}
    (include_user select_id_name);
  (* Filter by location radius if provided *)
  match SearchFilters.latitude filters, SearchFilters.longitude filters,
        SearchFilters.radiusKm filters with
  | Some latitude, Some longitude, Some radiusKm =>
      if JS.truthy_number radiusKm then
        mret (List.filter (within latitude longitude radiusKm) dogs)
      else mret dogs
  | _, _, _ => mret dogs
  end.

(** The [where] object [getForMap] builds from its bounds. *)
Definition map_where (bounds : option Bounds.t) : DogWhereInput.t :=
  match bounds with
  | Some bounds =>
      DogWhereInput.set_longitude
        {| gte := Bounds.west bounds; lte := Bounds.east bounds |}
        (DogWhereInput.set_latitude
           {| gte := Bounds.south bounds; lte := Bounds.north bounds |}
           DogWhereInput.empty)
  | None => DogWhereInput.empty
  end.

Definition getForMap (bounds : option Bounds.t) : M (list Marker.t) :=
  let where_ := map_where bounds in
  prisma_dog_findMany
    {| FindManyArgs.where_ := Some where_;
       FindManyArgs.orderBy := Some desc;
       FindManyArgs.skip := None;
       FindManyArgs.take := Some 100 (* Limit markers for performance *) |}
    select_marker.

Definition not_found_or_forbidden : Exception :=
  Error "Cachorro não encontrado ou você não tem permissão".

Definition update (id userId : string) (input : UpdateDogInput.t)
  : M (DogWith UserIdNameEmail.t) :=
  (* Check ownership *)
  existingDog ← prisma_dog_findFirst (owned_by id userId);
  match existingDog with
  | None => throw not_found_or_forbidden
  | Some _ =>
      prisma_dog_update id input (include_user select_id_name_email)
  end.

Definition delete (id userId : string) : M bool :=
  (* Check ownership *)
  existingDog ← prisma_dog_findFirst (owned_by id userId);
  match existingDog with
  | None => throw not_found_or_forbidden
  | Some _ =>
      _ ← prisma_dog_delete id;
      mret true
  end.

Definition findByUser (userId : string) : M (list Dog.t) :=
  prisma_dog_findMany
    {| FindManyArgs.where_ :=
         Some (DogWhereInput.set_userId userId DogWhereInput.empty);
       FindManyArgs.orderBy := Some desc;
       FindManyArgs.skip := None;
       FindManyArgs.take := None |}
    plain.

End Methods.
End DogService.

(** ** The HTTP layer ([routes/dog.routes.ts], [middleware/auth.middleware.ts]) *)

(** The routes that read their input from the path, the query string and
    the Authorization header.  [jwt.verify], [parseFloat] and [parseInt]
    are variables of the handlers. *)

(** [authHeader.split(' ')]: the pieces between the separators, the empty
    ones included. *)
Fixpoint split (separator : ascii) (s : string) : list string :=
  match s with
  | EmptyString => [EmptyString]
  | String c rest =>
      if Ascii.eqb c separator then EmptyString :: split separator rest
      else
        match split separator rest with
        | piece :: pieces => String c piece :: pieces
        | [] => [String c EmptyString]
        end
  end.

(** [{ error: { code, message } }] or the payload of the route. *)
Inductive Body (A : Type) :=
  | json (payload : A)
  | error_json (code message : string).
Arguments json {A} payload.
Arguments error_json {A} code message.

(** [res.status(status).json(body)]; [res.json(body)] sends status 200. *)
Module Response.
Record t (A : Type) := { status : Z; body : Body A }.
Arguments status {A} _.
Arguments body {A} _.
End Response.

Definition res_status_json {A} (status : Z) (body : Body A) : M (Response.t A) :=
  mret {| Response.status := status; Response.body := body |}.

Definition res_json {A} (payload : A) : M (Response.t A) :=
  res_status_json 200 (json payload).

(** The payload of a verified token. *)
Module JwtPayload.
Record t := { userId : string }.
End JwtPayload.

(** What [authMiddleware] leaves: a response sent, or [next()] with
    [req.userId] set. *)
Inductive Guard (A : Type) :=
  | responded (r : Response.t A)
  | next (userId : string).
Arguments responded {A} r.
Arguments next {A} userId.

(** A marker as the map route sends it. *)
Module MapMarker.
Record t := {
  id : string;
  latitude : float;
  longitude : float;
  imageUrl : option string;
  description : string;
  status : string;
  breed : option string
}.
End MapMarker.

(** [req.query] of the map route. *)
Module MapQuery.
Record t := {
  north : option string;
  south : option string;
  east : option string;
  west : option string
}.
End MapQuery.

(** [req.query] of the search route. *)
Module SearchQuery.
Record t := {
  q : option string;
  status : option string;
  size : option string;
  breed : option string;
  lat : option string;
  lng : option string;
  radius : option string
}.
End SearchQuery.

(** Modelled from the spec: [prisma.user.findUnique({ where: { id } })] of
    the storage client ([config/database], missing), "findUnique(id) ->
    record | absent", on the users.  The column is of type UUID, as for
    the dogs.  The lookup only reads; the record of calls follows the dog
    storage and the prediction service, and does not list it. *)
Definition prisma_user_findUnique {db : Database} (id : string) : M (option User.t) :=
  w ← get (fun w => w);
  match users w !! id with
  | Some user => mret (Some user)
  | None =>
      if is_uuid id then mret None
      else throw (PrismaClientKnownRequestError "P2023")
  end.

Module Routes.
Section Handlers.
Context {math : MathObject} {mlService : MLService} {db : Database}.

(** [jwt.verify(token, secret)]: the payload, or what it throws, a
    [JsonWebTokenError] for a token that is missing, malformed, expired or
    wrongly signed, another error for whatever else goes wrong. *)
Variable jwt_verify : option string -> string -> Result JwtPayload.t.
(** [process.env.JWT_SECRET] *)
Variable JWT_SECRET : option string.
Variable parseFloat : string -> float.
(** [parseInt(s)], nothing where it is [NaN]. *)
Variable parseInt : string -> option Z.

Definition authMiddleware {A} (authorization : option string) : M (Guard A) :=
  try_catch
    (let authHeader := authorization in
     if negb (JS.truthy authHeader)
        || negb (String.prefix "Bearer " (JS.string_of authHeader))
     then
       r ← res_status_json 401 (error_json "UNAUTHORIZED" "Token não fornecido");
       mret (responded r)
     else
       let token := split " " (JS.string_of authHeader) !! 1%nat in
       let jwtSecret := JS.or_else JWT_SECRET "default_secret" in
       decoded ← settle (jwt_verify token jwtSecret);
       user ← prisma_user_findUnique (JwtPayload.userId decoded);
       match user with
       | None =>
           r ← res_status_json 401 (error_json "UNAUTHORIZED" "Usuário não encontrado");
           mret (responded r)
       | Some user => mret (next (User.id user))
       end)
    (fun error =>
       match error with
       | JsonWebTokenError _ =>
           r ← res_status_json 401 (error_json "INVALID_TOKEN" "Token inválido");
           mret (responded r)
       | _ =>
           r ← res_status_json 500 (error_json "AUTH_ERROR" "Erro na autenticação");
           mret (responded r)
       end).

(** [optionalAuthMiddleware] always calls [next()]; [req.userId] is set
    when the request carries the token of a stored user. *)
Definition optionalAuthMiddleware (authorization : option string) : M (option string) :=
  try_catch
    (let authHeader := authorization in
     if JS.truthy authHeader && String.prefix "Bearer " (JS.string_of authHeader) then
       let token := split " " (JS.string_of authHeader) !! 1%nat in
       let jwtSecret := JS.or_else JWT_SECRET "default_secret" in
       decoded ← settle (jwt_verify token jwtSecret);
       user ← prisma_user_findUnique (JwtPayload.userId decoded);
       match user with
       | Some user => mret (Some (User.id user))
       | None => mret None
       end
     else mret None)
    (fun _ =>
       (* Token invalid, but it's optional, so continue *)
       mret None).

(** [router.<method>(path, authMiddleware, handler)] *)
Definition guarded {A} (authorization : option string)
    (handler : string -> M (Response.t A)) : M (Response.t A) :=
  guard ← authMiddleware authorization;
  match guard with
  | responded r => mret r
  | next userId => handler userId
  end.

(** [parseInt(req.query.x as string) || fallback] *)
Definition parseInt_or (x : option string) (fallback : Z) : Z :=
  match x ≫= parseInt with
  | Some n => if n =? 0 then fallback else n
  | None => fallback
  end.

(** [error instanceof Error ? error.message : fallback]; what the service
    and the storage client throw are [Error]s, the message of the storage
    client's being its own. *)
Variable prisma_message : Exception -> string.

Definition message_of (e : Exception) : string :=
  match e with
  | Error message | JsonWebTokenError message => message
  | _ => prisma_message e
  end.

(** GET /api/dogs *)
Definition get_list (authorization page limit : option string)
  : M (Response.t DogPage.t) :=
  _ ← optionalAuthMiddleware authorization;
  try_catch
    (let page := parseInt_or page 1 in
     let limit := parseInt_or limit 50 in
     result ← DogService.findAll (Some page) (Some limit);
     res_json result)
    (fun _ => res_status_json 500 (error_json "LIST_ERROR" "Erro ao listar cachorros")).

Definition map_marker (dog : Marker.t) : MapMarker.t :=
  {| MapMarker.id := Marker.id dog;
     MapMarker.latitude := Marker.latitude dog;
     MapMarker.longitude := Marker.longitude dog;
     MapMarker.imageUrl := Marker.imageUrl dog;
     MapMarker.description := Marker.description dog;
     MapMarker.status := Marker.status dog;
     MapMarker.breed := Marker.breed dog |}.

Definition map_bounds (query : MapQuery.t) : option Bounds.t :=
  let north := MapQuery.north query in
  let south := MapQuery.south query in
  let east := MapQuery.east query in
  let west := MapQuery.west query in
  if JS.truthy north && JS.truthy south && JS.truthy east && JS.truthy west then
    Some {| Bounds.north := parseFloat (JS.string_of north);
            Bounds.south := parseFloat (JS.string_of south);
            Bounds.east := parseFloat (JS.string_of east);
            Bounds.west := parseFloat (JS.string_of west) |}
  else None.

(** GET /api/dogs/map *)
Definition get_map (query : MapQuery.t) : M (Response.t (list MapMarker.t)) :=
  try_catch
    (let bounds := map_bounds query in
     dogs ← DogService.getForMap bounds;
     res_json (map_marker <$> dogs))
    (fun _ => res_status_json 500 (error_json "MAP_ERROR" "Erro ao buscar marcadores do mapa")).

Definition search_filters (query : SearchQuery.t) : SearchFilters.t :=
  let lat := SearchQuery.lat query in
  let lng := SearchQuery.lng query in
  let radius := SearchQuery.radius query in
  {| SearchFilters.query := SearchQuery.q query;
     SearchFilters.status := SearchQuery.status query;
     SearchFilters.size := SearchQuery.size query;
     SearchFilters.breed := SearchQuery.breed query;
     SearchFilters.latitude :=
       if JS.truthy lat then Some (parseFloat (JS.string_of lat)) else None;
     SearchFilters.longitude :=
       if JS.truthy lng then Some (parseFloat (JS.string_of lng)) else None;
     SearchFilters.radiusKm :=
       if JS.truthy radius then Some (parseFloat (JS.string_of radius)) else None |}.

(** GET /api/dogs/search *)
Definition get_search (query : SearchQuery.t)
  : M (Response.t (list (DogWith UserIdName.t))) :=
  try_catch
    (let filters := search_filters query in
     dogs ← DogService.search filters;
     res_json dogs)
    (fun _ => res_status_json 500 (error_json "SEARCH_ERROR" "Erro ao buscar cachorros")).

(** GET /api/dogs/my *)
Definition get_my (authorization : option string) : M (Response.t (list Dog.t)) :=
  guarded authorization (fun userId =>
    try_catch
      (dogs ← DogService.findByUser userId;
       res_json dogs)
      (fun _ => res_status_json 500 (error_json "LIST_ERROR" "Erro ao listar seus cachorros"))).

(** GET /api/dogs/:id *)
Definition get_by_id (id : string) : M (Response.t (DogWith UserIdNameEmail.t)) :=
  try_catch
    (dog ← DogService.findById id;
     match dog with
     | None => res_status_json 404 (error_json "NOT_FOUND" "Cachorro não encontrado")
     | Some dog => res_json dog
     end)
    (fun _ => res_status_json 500 (error_json "FETCH_ERROR" "Erro ao buscar cachorro")).

(** DELETE /api/dogs/:id *)
Definition delete_by_id (authorization : option string) (id : string)
  : M (Response.t string) :=
  guarded authorization (fun userId =>
    try_catch
      (_ ← DogService.delete id userId;
       res_json "Cachorro removido com sucesso")
      (fun error =>
         let message := message_of error in
         res_status_json 400 (error_json "DELETE_ERROR" message))).

End Handlers.
End Routes.

(** ** Vocabulary of the statements *)

(** The rows of the [dogs] table. *)
Definition rows (w : World) : list Dog.t := (map_to_list (dogs w)).*2.

(** The primary key: a row is stored under its own id. *)
Definition primary_key (t : gmap string Dog.t) : Prop :=
  forall k d, t !! k = Some d -> Dog.id d = k.

(** The world after a call has been logged. *)
Definition logged (c : Call) (w : World) : World := snd (log c w).

(** The calls made between two worlds. *)
Definition new_calls (w w' : World) : list Call :=
  drop (length (calls w)) (calls w').

(** A prediction that brings no breed: the call rejects, or resolves
    without a (non-empty) breed. *)
Definition no_breed (r : Result PredictionResult.t) : Prop :=
  match r with
  | Throw _ => True
  | Return prediction => JS.truthy (PredictionResult.breed prediction) = false
  end.

(** Newest first, on markers. *)
Definition marker_newest_first (a b : Marker.t) : Prop :=
  Marker.createdAt b <= Marker.createdAt a.

(** [include: { user: { select: { id, name, email } } }] *)
Abbreviation with_owner := (include_user select_id_name_email).

(** Two rows that differ at most in their breed and their last update. *)
Definition same_sighting (a b : Dog.t) : Prop :=
  Dog.id a = Dog.id b /\ Dog.description a = Dog.description b /\
  Dog.imageUrl a = Dog.imageUrl b /\ Dog.latitude a = Dog.latitude b /\
  Dog.longitude a = Dog.longitude b /\ Dog.color a = Dog.color b /\
  Dog.size a = Dog.size b /\ Dog.status a = Dog.status b /\
  Dog.createdAt a = Dog.createdAt b /\ Dog.userId a = Dog.userId b.

(** [column ILIKE '%needle%'] *)
Definition contains {db : Database} (needle : string) (column : option string) : bool :=
  string_filter_matches (contains_insensitive needle) column.

(** The text filters of [search], read directly on a row: a filter that is
    absent or empty accepts every row. *)
Definition text_filters_accept {db : Database} (filters : SearchFilters.t) (d : Dog.t)
  : bool :=
  (if JS.truthy (SearchFilters.query filters) then
     let q := JS.string_of (SearchFilters.query filters) in
     contains q (Some (Dog.description d)) || contains q (Dog.breed d)
     || contains q (Dog.color d)
   else true)
  && (if JS.truthy (SearchFilters.status filters)
      then String.eqb (JS.string_of (SearchFilters.status filters)) (Dog.status d)
      else true)
  && (if JS.truthy (SearchFilters.size filters)
      then equals_matches (JS.string_of (SearchFilters.size filters)) (Dog.size d)
      else true)
  && (if JS.truthy (SearchFilters.breed filters)
      then contains (JS.string_of (SearchFilters.breed filters)) (Dog.breed d)
      else true).

(** The radius filter of [search], read directly on a row. *)
Definition radius_accepts {math : MathObject} (filters : SearchFilters.t) (d : Dog.t) : bool :=
  match SearchFilters.latitude filters, SearchFilters.longitude filters,
        SearchFilters.radiusKm filters with
  | Some latitude, Some longitude, Some radiusKm =>
      if JS.truthy_number radiusKm then
        (calculateDistance latitude longitude (Dog.latitude d) (Dog.longitude d)
         <=? radiusKm)%float
      else true
  | _, _, _ => true
  end.

(** The number of the next call to a collaborator. *)
Definition next_query (w : World) : nat := S (length (calls w)).

(** The rows of the table, newest first, as the next query returns them. *)
Definition newest {db : Database} (w : World) : list (DogWith UserIdName.t) :=
  include_user select_id_name w <$> order_rows (next_query w) (Some desc) (rows w).

(** Pages [from], [from + 1], ... of [findAll], [n] of them, fetched one
    after the other, and their records put end to end. *)
Fixpoint fetch_pages {db : Database} (limit from : Z) (n : nat)
  : M (list (DogWith UserIdName.t)) :=
  match n with
  | O => mret []
  | S n =>
      result ← DogService.findAll (Some from) (Some limit);
      rest ← fetch_pages limit (from + 1) n;
      mret (DogPage.dogs result ++ rest)
  end.

(** No two rows were created at the same time. *)
Definition no_ties (w : World) : Prop :=
  forall a b, In a (rows w) -> In b (rows w) ->
    Dog.createdAt a = Dog.createdAt b -> a = b.

(** The user a request acts for: the one [authMiddleware] lets it through as. *)
Definition authenticated_as (jwt_verify : option string -> string -> Result JwtPayload.t)
    (JWT_SECRET : option string) (authorization : option string) (w : World)
  : option string :=
  authHeader ← authorization;
  if String.prefix "Bearer " authHeader then
    match jwt_verify (split " " authHeader !! 1%nat)
            (JS.or_else JWT_SECRET "default_secret") with
    | Return decoded =>
        user ← users w !! JwtPayload.userId decoded;
        Some (User.id user)
    | Throw _ => None
    end
  else None.

(** The requests on which the authentication itself breaks: the verification
    throws something that is no [JsonWebTokenError], or the user lookup
    throws, the id in the token being no UUID. *)
Definition authentication_breaks {db : Database}
    (jwt_verify : option string -> string -> Result JwtPayload.t)
    (JWT_SECRET : option string) (authorization : option string) (w : World) : Prop :=
  exists authHeader,
    authorization = Some authHeader /\
    String.prefix "Bearer " authHeader = true /\
    match jwt_verify (split " " authHeader !! 1%nat)
            (JS.or_else JWT_SECRET "default_secret") with
    | Return decoded =>
        users w !! JwtPayload.userId decoded = None /\
        is_uuid (JwtPayload.userId decoded) = false
    | Throw (JsonWebTokenError _) => False
    | Throw _ => True
    end.

(** An error response with the given status. *)
Definition is_error {A} (status : Z) (code message : string) (r : Response.t A) : Prop :=
  Response.status r = status /\ Response.body r = error_json code message.

(** ** Sample data *)

Module Sample.

(** Ids, as the columns of type UUID hold them. *)
Definition u1 : string := "00000000-0000-4000-8000-0000000000a1".
Definition u2 : string := "00000000-0000-4000-8000-0000000000a2".
Definition d1 : string := "00000000-0000-4000-8000-0000000000d1".
Definition d2 : string := "00000000-0000-4000-8000-0000000000d2".
Definition d3 : string := "00000000-0000-4000-8000-0000000000d3".

(** The ids [uuid()] draws: the number of the draw in the last group. *)
Fixpoint zeros (n : nat) : string :=
  match n with
  | O => EmptyString
  | S n => String "0" (zeros n)
  end.

Definition uuid_v4 (n : nat) : string :=
  let digits := pretty n in
  "00000000-0000-4000-9000-" +:+ zeros (12 - String.length digits) +:+ digits.

Definition alice : User.t :=
  {| User.id := u1; User.email := "alice@example.com"; User.password := "$2a$12$hash";
     User.name := Some "Alice"; User.avatar := None |}.

Definition bob : User.t :=
  {| User.id := u2; User.email := "bob@example.com"; User.password := "$2a$12$hash";
     User.name := None; User.avatar := None |}.

(** Two sightings in São Paulo and one in Rio de Janeiro. *)
Definition labrador : Dog.t :=
  {| Dog.id := d1; Dog.description := "Labrador perdido";
     Dog.imageUrl := None;
     Dog.latitude := (-23.5)%float; Dog.longitude := (-46.625)%float;
     Dog.breed := Some "Labrador"; Dog.color := Some "Amarelo";
     Dog.size := Some "grande"; Dog.status := "perdido";
     Dog.createdAt := 100; Dog.updatedAt := 100; Dog.userId := u1 |}.

Definition lab_mix : Dog.t :=
  {| Dog.id := d2; Dog.description := "Friendly lab mix";
     Dog.imageUrl := None;
     Dog.latitude := (-22.90625)%float; Dog.longitude := (-43.171875)%float;
     Dog.breed := Some "Beagle"; Dog.color := None;
     Dog.size := None; Dog.status := "encontrado";
     Dog.createdAt := 200; Dog.updatedAt := 200; Dog.userId := u2 |}.

Definition stray : Dog.t :=
  {| Dog.id := d3; Dog.description := "Cachorro encontrado";
     Dog.imageUrl := Some "https://example.com/dog.jpg";
     Dog.latitude := (-23.5)%float; Dog.longitude := (-46.625)%float;
     Dog.breed := None; Dog.color := None;
     Dog.size := None; Dog.status := "encontrado";
     Dog.createdAt := 300; Dog.updatedAt := 300; Dog.userId := u1 |}.

Definition world : World :=
  {| dogs := <[d1 := labrador]> (<[d2 := lab_mix]> (<[d3 := stray]> ∅));
     users := <[u1 := alice]> (<[u2 := bob]> ∅);
     uuid := uuid_v4;
     issued := 0;
     now := 1000;
     calls := [] |}.

Definition empty_world : World :=
  {| dogs := ∅; users := users world; uuid := uuid world; issued := 0;
     now := 1000; calls := [] |}.

(** [search] filters: a point in São Paulo and a radius. *)
Definition around (radiusKm : float) : SearchFilters.t :=
  {| SearchFilters.query := None; SearchFilters.status := None;
     SearchFilters.size := None; SearchFilters.breed := None;
     SearchFilters.latitude := Some (-23.5)%float;
     SearchFilters.longitude := Some (-46.625)%float;
     SearchFilters.radiusKm := Some radiusKm |}.

(** [search] filters: a query and a breed together. *)
Definition lab_poodle : SearchFilters.t :=
  {| SearchFilters.query := Some "lab"; SearchFilters.status := None;
     SearchFilters.size := None; SearchFilters.breed := Some "poodle";
     SearchFilters.latitude := None; SearchFilters.longitude := None;
     SearchFilters.radiusKm := None |}.

(** A sighting with an image and no breed. *)
Definition sighting : CreateDogInput.t :=
  {| CreateDogInput.description := "Cachorro encontrado";
     CreateDogInput.imageUrl := Some "https://example.com/dog.jpg";
     CreateDogInput.latitude := (-23.5)%float;
     CreateDogInput.longitude := (-46.625)%float;
     CreateDogInput.breed := None; CreateDogInput.color := None;
     CreateDogInput.size := None; CreateDogInput.status := None;
     CreateDogInput.userId := u1 |}.

Definition patch : UpdateDogInput.t :=
  {| UpdateDogInput.description := Some "Updated description";
     UpdateDogInput.imageUrl := None; UpdateDogInput.latitude := None;
     UpdateDogInput.longitude := None; UpdateDogInput.breed := None;
     UpdateDogInput.color := None; UpdateDogInput.size := None;
     UpdateDogInput.status := Some "adotado" |}.

(** A collaborator whose call rejects. *)
Definition ml_rejecting : MLService :=
  {| predictBreed := fun _ _ => Throw (Error "ML service unavailable") |}.

(** A collaborator that recognises a poodle. *)
Definition ml_poodle : MLService :=
  {| predictBreed := fun _ _ =>
       Return {| PredictionResult.breed := Some "Poodle";
                 PredictionResult.confidence := Some 0.9375%float;
                 PredictionResult.error := None |} |}.

(** An exchange with the prediction service that brings a breed. *)
Definition fetch_poodle (dogId imageUrl : string) : Fetch.outcome :=
  Fetch.response true
    (Some {| Fetch.result := Some "Poodle";
             Fetch.confidence := Some 0.9375%float;
             Fetch.error := None |}).

(** Tokens: under the default secret, one for Alice, one for Bob and one
    for a user who is gone; a token that makes the verification fail in an
    unexpected way. *)
Definition jwt_verify (token : option string) (secret : string) : Result JwtPayload.t :=
  let token := JS.string_of token in
  if String.eqb secret "default_secret" then
    if String.eqb token "token-of-alice" then Return {| JwtPayload.userId := u1 |}
    else if String.eqb token "token-of-bob" then Return {| JwtPayload.userId := u2 |}
    else if String.eqb token "token-of-carol" then
      Return {| JwtPayload.userId := "6f1c2a90-0d3e-4c55-9a7b-2f0e8d4c1b3a" |}
    else if String.eqb token "broken" then Throw (Error "Unexpected error")
    else Throw (JsonWebTokenError "jwt malformed")
  else Throw (JsonWebTokenError "invalid signature").

(** The folding of a database encoded in UTF-8 on the letters of Latin-1:
    A to Z, and the two-byte letters from À to Þ. *)
Definition lower_ascii (c : ascii) : ascii :=
  let n := nat_of_ascii c in
  if (65 <=? n)%nat && (n <=? 90)%nat then ascii_of_nat (n + 32) else c.

Definition upper_latin1 (lead c : ascii) : bool :=
  let n := nat_of_ascii c in
  ((nat_of_ascii lead =? 195) && (128 <=? n) && (n <=? 158) && negb (n =? 151))%nat.

Fixpoint lower_latin1 (s : string) : string :=
  match s with
  | EmptyString => EmptyString
  | String c s' =>
      match s' with
      | String c' s'' =>
          if upper_latin1 c c'
          then String c (String (ascii_of_nat (nat_of_ascii c' + 32)) (lower_latin1 s''))
          else String (lower_ascii c) (lower_latin1 s')
      | EmptyString => String (lower_ascii c) EmptyString
      end
  end.

(** The canonical form of a UUID: 8-4-4-4-12 hexadecimal digits. *)
Definition is_hex (c : ascii) : bool :=
  let n := nat_of_ascii c in
  ((48 <=? n) && (n <=? 57) || (97 <=? n) && (n <=? 102) || (65 <=? n) && (n <=? 70))%nat.

Fixpoint is_uuid_from (position : nat) (s : string) : bool :=
  match s with
  | EmptyString => (position =? 36)%nat
  | String c s' =>
      (if (position =? 8) || (position =? 13) || (position =? 18) || (position =? 23)
       then Ascii.eqb c "-" else is_hex c)%nat
      && is_uuid_from (S position) s'
  end.

Definition is_uuid_canonical (s : string) : bool := is_uuid_from 0 s.

(** A stable sort on the creation time. *)
Definition sorted_by (query : nat) (o : SortOrder) (rows : list Dog.t) : list Dog.t :=
  match o with
  | desc => merge_sort newest_first rows
  | asc => merge_sort oldest_first rows
  end.

Lemma sorted_by_Permutation query o rows : sorted_by query o rows ≡ₚ rows.
Proof. destruct o; apply merge_sort_Permutation. Qed.

Lemma sorted_by_sorted query o rows : StronglySorted (in_order o) (sorted_by query o rows).
Proof. destruct o; apply (StronglySorted_merge_sort _). Qed.

(** The sample database. *)
Definition database : Database :=
  {| lower := lower_latin1;
     is_uuid := is_uuid_canonical;
     order_by := sorted_by;
     order_by_Permutation := sorted_by_Permutation;
     order_by_sorted := sorted_by_sorted |}.

(** [parseFloat] and [parseInt] on the texts of the sample requests. *)
Definition parseFloat (s : string) : float :=
  if String.eqb s "-23.5" then (-23.5)%float
  else if String.eqb s "-46.625" then (-46.625)%float
  else if String.eqb s "5" then 5%float
  else nan.

Definition parseInt (s : string) : option Z :=
  if String.eqb s "0" then Some 0
  else if String.eqb s "2" then Some 2
  else None.

Definition prisma_message (e : Exception) : string := "Invalid invocation".

(** A search around a point whose latitude is no number. *)
Definition around_nowhere : SearchFilters.t :=
  {| SearchFilters.query := None; SearchFilters.status := None;
     SearchFilters.size := None; SearchFilters.breed := None;
     SearchFilters.latitude := Some nan;
     SearchFilters.longitude := Some (-46.625)%float;
     SearchFilters.radiusKm := Some 5%float |}.

(** A map request that lacks its western bound. *)
Definition three_bounds : MapQuery.t :=
  {| MapQuery.north := Some "-23.5"; MapQuery.south := Some "-46.625";
     MapQuery.east := Some "5"; MapQuery.west := None |}.

(** A search request with a point and an empty radius. *)
Definition point_without_radius : SearchQuery.t :=
  {| SearchQuery.q := Some "lab"; SearchQuery.status := None;
     SearchQuery.size := None; SearchQuery.breed := None;
     SearchQuery.lat := Some "-23.5"; SearchQuery.lng := Some "-46.625";
     SearchQuery.radius := Some EmptyString |}.

End Sample.

(** * Verification *)

(** ** Binary64 facts

    The primitive operations are specified by [FloatAxioms] over
    [SpecFloat]; the lemmas below are the consequences the service needs. *)

Module FloatFacts.

Lemma digits2_pos_size p : digits2_pos p = Pos.size p.
Proof. induction p as [p IH|p IH|]; simpl; congruence. Qed.

Lemma Zdigits2_log2 p : Zpos (digits2_pos p) = Z.log2 (Zpos p) + 1.
Proof.
  rewrite digits2_pos_size.
  destruct p as [p|p|]; simpl; try rewrite Pos2Z.inj_succ; lia.
Qed.

Lemma Zdigits2_upper z k : 0 <= z < 2 ^ k -> 0 <= k -> Zdigits2 z <= k.
Proof.
  intros [Hz Hlt] Hk. destruct z as [|p|p]; simpl; [lia| |lia].
  rewrite Zdigits2_log2.
  assert (Z.log2 (Zpos p) < k) by (apply Z.log2_lt_pow2; lia). lia.
Qed.

Lemma Zpos_lt_pow_digits p : Zpos p < 2 ^ Zpos (digits2_pos p).
Proof.
  rewrite Zdigits2_log2.
  pose proof (Z.log2_spec (Zpos p) ltac:(lia)) as [_ H].
  now rewrite <- Z.add_1_r in H.
Qed.

Lemma digits2_pos_mul p q :
  Zpos (digits2_pos (p * q)) <= Zpos (digits2_pos p) + Zpos (digits2_pos q).
Proof.
  apply (Zdigits2_upper (Zpos (p * q))); [|lia].
  split; [lia|]. rewrite Pos2Z.inj_mul, Z.pow_add_r by lia.
  pose proof (Zpos_lt_pow_digits p). pose proof (Zpos_lt_pow_digits q). nia.
Qed.

Lemma shr_1_m mrs : 0 <= shr_m mrs -> shr_m (shr_1 mrs) = Z.shiftr (shr_m mrs) 1.
Proof.
  destruct mrs as [m r s]; simpl. intros Hm.
  rewrite <- Z.div2_spec.
  destruct m as [|[p|p|]|p]; simpl; try reflexivity; lia.
Qed.

Lemma iter_shr_1_m p : forall mrs, 0 <= shr_m mrs ->
  shr_m (SpecFloat.iter_pos shr_1 p mrs) = Z.shiftr (shr_m mrs) (Zpos p).
Proof.
  induction p as [p IH|p IH|]; intros mrs Hm; simpl.
  - assert (H1 : 0 <= shr_m (shr_1 mrs)) by (rewrite shr_1_m by lia; apply Z.shiftr_nonneg; lia).
    assert (H2 : 0 <= shr_m (SpecFloat.iter_pos shr_1 p (shr_1 mrs))) by (rewrite IH by lia; apply Z.shiftr_nonneg; lia).
    rewrite IH, IH, shr_1_m by lia.
    rewrite !Z.shiftr_shiftr by lia. f_equal. lia.
  - assert (H2 : 0 <= shr_m (SpecFloat.iter_pos shr_1 p mrs)) by (rewrite IH by lia; apply Z.shiftr_nonneg; lia).
    rewrite IH, IH by lia. rewrite Z.shiftr_shiftr by lia. f_equal. lia.
  - apply shr_1_m, Hm.
Qed.

Lemma round_nearest_even_bounds m l : m <= round_nearest_even m l <= m + 1.
Proof. destruct l as [|[]]; simpl; try lia. destruct (Z.even m); lia. Qed.

Lemma shiftr_lt_pow m p d :
  0 <= m < 2 ^ d -> 0 <= d -> 0 < p -> Z.shiftr m p < 2 ^ Z.max (d - p) 0.
Proof.
  intros [H0 Hm] Hd Hp. rewrite Z.shiftr_div_pow2 by lia.
  destruct (Z.le_gt_cases p d) as [Hle|Hgt].
  - rewrite Z.max_l by lia. apply Z.div_lt_upper_bound; [lia|].
    rewrite <- Z.pow_add_r by lia. replace (p + (d - p)) with d by lia. lia.
  - rewrite Z.max_r by lia. simpl.
    assert (2 ^ d < 2 ^ p) by (apply Z.pow_lt_mono_r; lia).
    rewrite Z.div_small; lia.
Qed.

Ltac exp_in_range :=
  change (emax - prec) with 971; rewrite (proj2 (Z.leb_le _ _)) by lia.

(** Rounding a positive mantissa cannot overflow when the exponent and the
    magnitude are in range. *)
Lemma binary_round_aux_no_overflow s m e :
  e <= 971 -> Zpos (digits2_pos m) + e <= 1023 ->
  binary_round_aux prec emax s (Zpos m) e loc_Exact = S754_zero s \/
  exists m' e', binary_round_aux prec emax s (Zpos m) e loc_Exact = S754_finite s m' e'.
Proof.
  intros He Hd.
  unfold binary_round_aux, shr_fexp, shr, shr_record_of_loc.
  change (Zdigits2 (Zpos m)) with (Zpos (digits2_pos m)).
  set (d := Zpos (digits2_pos m)) in *.
  assert (Hfexp : fexp prec emax (d + e) = Z.max (d + e - 53) (-1074)) by reflexivity.
  destruct (fexp prec emax (d + e) - e) as [|p|p] eqn:Hn.
  - simpl. change (Zpos (digits2_pos m)) with d. rewrite Hn. simpl.
    exp_in_range. eauto.
  - set (mrs := SpecFloat.iter_pos shr_1 p _).
    assert (Hm' : shr_m mrs = Z.shiftr (Zpos m) (Zpos p)) by (apply iter_shr_1_m; simpl; lia).
    pose proof (round_nearest_even_bounds (shr_m mrs) (loc_of_shr_record mrs)) as Hr.
    set (m1 := round_nearest_even _ _) in *.
    assert (H0 : 0 <= shr_m mrs) by (rewrite Hm'; apply Z.shiftr_nonneg; lia).
    assert (Hlt : shr_m mrs < 2 ^ Z.max (d - Zpos p) 0).
    { rewrite Hm'. apply shiftr_lt_pow; try lia. split; [lia|]. apply Zpos_lt_pow_digits. }
    assert (Hdig : Zdigits2 m1 <= Z.max (d - Zpos p) 0 + 1).
    { apply Zdigits2_upper; [|lia]. split; [lia|].
      rewrite Z.pow_add_r by lia. lia. }
    assert (Hfexp2 : fexp prec emax (Zdigits2 m1 + (e + Zpos p)) =
                     Z.max (Zdigits2 m1 + (e + Zpos p) - 53) (-1074)) by reflexivity.
    destruct (fexp prec emax (Zdigits2 m1 + (e + Zpos p)) - (e + Zpos p)) as [|p2|p2] eqn:Hn2.
    + simpl. destruct m1 as [|q|q]; [eauto| |lia].
      exp_in_range. eauto.
    + set (mrs2 := SpecFloat.iter_pos shr_1 p2 _).
      assert (Hm2 : shr_m mrs2 = Z.shiftr m1 (Zpos p2)) by (apply iter_shr_1_m; simpl; lia).
      assert (0 <= shr_m mrs2) by (rewrite Hm2; apply Z.shiftr_nonneg; lia).
      destruct (shr_m mrs2) as [|q|q]; [eauto| |lia].
      exp_in_range. eauto.
    + simpl. destruct m1 as [|q|q]; [eauto| |lia].
      exp_in_range. eauto.
  - simpl. change (Zpos (digits2_pos m)) with d. rewrite Hn. simpl.
    exp_in_range. eauto.
Qed.

(** [is_finite] read on the specification side. *)
Variant SFfinite : spec_float -> Prop :=
  | SFfinite_zero s : SFfinite (S754_zero s)
  | SFfinite_num s m e : SFfinite (S754_finite s m e).

Lemma is_finite_SF x : is_finite x = true -> SFfinite (Prim2SF x).
Proof.
  unfold is_finite, is_nan, is_infinity.
  rewrite !FloatAxioms.eqb_spec, FloatAxioms.abs_spec.
  destruct (Prim2SF x) as [s|[|]| |s m e]; try constructor; discriminate.
Qed.

Lemma SFcompare_refl_finite s m e :
  SFcompare (S754_finite s m e) (S754_finite s m e) = Some Eq.
Proof.
  simpl. rewrite Z.compare_refl, Pos.compare_cont_refl. now destruct s.
Qed.

Lemma SF_is_finite x : SFfinite (Prim2SF x) -> is_finite x = true.
Proof.
  unfold is_finite, is_nan, is_infinity.
  rewrite !FloatAxioms.eqb_spec, FloatAxioms.abs_spec.
  intros Hx; destruct Hx as [s|s m e].
  - reflexivity.
  - unfold SFeqb. rewrite SFcompare_refl_finite. reflexivity.
Qed.

(** A finite number minus itself is [+0]. *)
Lemma sub_diag x : is_finite x = true -> (x - x)%float = 0%float.
Proof.
  intros Hx%is_finite_SF. apply Prim2SF_inj. rewrite FloatAxioms.sub_spec.
  destruct Hx as [s|s m e]; unfold SF64sub, SFsub.
  - now destruct s.
  - rewrite Z.min_id. unfold shl_align. rewrite Z.sub_diag. simpl fst.
    reflexivity.
Qed.

Lemma add_nan_l x : (nan + x)%float = nan.
Proof.
  apply Prim2SF_inj. rewrite FloatAxioms.add_spec.
  change (Prim2SF nan) with S754_nan. reflexivity.
Qed.

Lemma div_nan_l x : (nan / x)%float = nan.
Proof.
  apply Prim2SF_inj. rewrite FloatAxioms.div_spec.
  change (Prim2SF nan) with S754_nan. reflexivity.
Qed.

Lemma valid_finite_bounds x s m e :
  Prim2SF x = S754_finite s m e -> Zpos (digits2_pos m) <= 53 /\ e <= 971.
Proof.
  intros Hx. pose proof (Prim2SF_valid x) as Hv. rewrite Hx in Hv.
  unfold SpecFloat.valid_binary, bounded, canonical_mantissa in Hv.
  apply andb_prop in Hv as [Hc He].
  apply Z.eqb_eq in Hc. apply Z.leb_le in He.
  change (emax - prec) with 971 in He.
  change (fexp prec emax (Zpos (digits2_pos m) + e))
    with (Z.max (Zpos (digits2_pos m) + e - 53) (-1074)) in Hc.
  lia.
Qed.

(** A product of two finite numbers is finite as soon as the exponents and
    the mantissa widths leave room. *)
Lemma mul_finite_SF x y sx mx ex sy my ey :
  Prim2SF x = S754_finite sx mx ex ->
  Prim2SF y = S754_finite sy my ey ->
  ex + ey <= 917 ->
  Prim2SF (x * y)%float = S754_zero (xorb sx sy) \/
  exists m e, Prim2SF (x * y)%float = S754_finite (xorb sx sy) m e.
Proof.
  intros Hx Hy He.
  destruct (valid_finite_bounds _ _ _ _ Hx) as [Hdx _].
  destruct (valid_finite_bounds _ _ _ _ Hy) as [Hdy _].
  rewrite FloatAxioms.mul_spec, Hx, Hy. unfold SF64mul, SFmul.
  apply binary_round_aux_no_overflow; [lia|].
  pose proof (digits2_pos_mul mx my). lia.
Qed.

Lemma toRad_finite deg : is_finite deg = true -> is_finite (toRad deg) = true.
Proof.
  intros Hx%is_finite_SF. apply SF_is_finite. unfold toRad.
  assert (Hk : Prim2SF (Math_PI / 180)%float = S754_finite false 5030569068109113 (-58))
    by reflexivity.
  inversion Hx as [s Hs|s m e Hs]; symmetry in Hs.
  - rewrite FloatAxioms.mul_spec, Hs, Hk. constructor.
  - destruct (valid_finite_bounds _ _ _ _ Hs) as [_ He].
    destruct (mul_finite_SF _ _ _ _ _ _ _ _ Hs Hk ltac:(lia)) as [->|(m' & e' & ->)];
      constructor.
Qed.

(** The exponent of a number between -1 and 1. *)
Lemma unit_range_exponent c s m e :
  ((-1 <=? c) && (c <=? 1))%float = true ->
  Prim2SF c = S754_finite s m e -> e <= -52.
Proof.
  intros Hr Hc. apply andb_prop in Hr as [Hl Hu].
  rewrite FloatAxioms.leb_spec in Hl, Hu. rewrite Hc in Hl, Hu.
  change (Prim2SF 1) with (S754_finite false 4503599627370496 (-52)) in Hu.
  change (Prim2SF (-1)) with (S754_finite true 4503599627370496 (-52)) in Hl.
  unfold SFleb, SFcompare in Hl, Hu.
  destruct s.
  - destruct (Z.compare_spec (-52) e); try lia; discriminate.
  - destruct (Z.compare_spec e (-52)); try lia; discriminate.
Qed.

(** The cosine term of the Haversine sum vanishes with the sine factor. *)
Lemma cos_term_zero c :
  ((-1 <=? c) && (c <=? 1))%float = true ->
  (c * c * 0 * 0)%float = 0%float.
Proof.
  intros Hr.
  assert (Hcc : (c * c * 0)%float = 0%float).
  { apply Prim2SF_inj. rewrite FloatAxioms.mul_spec.
    change (Prim2SF 0) with (S754_zero false).
    destruct (Prim2SF c) as [s|s| |s m e] eqn:Hc.
    - rewrite FloatAxioms.mul_spec, Hc. now destruct s.
    - apply andb_prop in Hr as [Hl Hu]. rewrite FloatAxioms.leb_spec, Hc in Hl, Hu.
      destruct s; discriminate.
    - apply andb_prop in Hr as [Hl Hu]. rewrite FloatAxioms.leb_spec, Hc in Hl. discriminate.
    - pose proof (unit_range_exponent _ _ _ _ Hr Hc) as He.
      destruct (mul_finite_SF _ _ _ _ _ _ _ _ Hc Hc ltac:(lia)) as [->|(m' & e' & ->)];
        now destruct s. }
  rewrite Hcc. reflexivity.
Qed.

End FloatFacts.

Import FloatFacts.

(** ** The small-angle [Math] object is lawful *)

Lemma div_zero_pos x : (0 <? x)%float = true -> (0 / x)%float = 0%float.
Proof.
  intros Hx. rewrite FloatAxioms.ltb_spec in Hx.
  apply Prim2SF_inj. rewrite FloatAxioms.div_spec.
  change (Prim2SF 0) with (S754_zero false) in *.
  destruct (Prim2SF x) as [s|s| |s m e]; try discriminate;
    destruct s; try discriminate; reflexivity.
Qed.

Lemma approx_cos_range x :
  ((-1 <=? approx_cos x) && (approx_cos x <=? 1))%float = true.
Proof.
  unfold approx_cos. cbv zeta.
  set (p := (1 - x * x / 2 + x * x * x * x / 24)%float).
  destruct ((-1 <=? p) && (p <=? 1))%float eqn:Hp; [exact Hp | reflexivity].
Qed.

Lemma approx_atan2_nan x : approx_atan2 nan x = nan.
Proof. unfold approx_atan2. rewrite div_nan_l. reflexivity. Qed.

Lemma approx_atan2_zero x :
  (0 <? x)%float = true -> approx_atan2 0%float x = 0%float.
Proof. intros Hx. unfold approx_atan2. rewrite (div_zero_pos x Hx). reflexivity. Qed.

#[global] Instance approx_Math : MathObject := {|
  Math_sin := approx_sin;
  Math_cos := approx_cos;
  Math_atan2 := approx_atan2;
  sin_nan := eq_refl;
  sin_zero := eq_refl;
  cos_range := fun x _ => approx_cos_range x;
  atan2_nan := approx_atan2_nan;
  atan2_zero := approx_atan2_zero
|}.

(** ** C6: the distance from a point to itself *)

Section Distance_facts.
Context {math : MathObject}.

Lemma toRad_zero : toRad 0%float = 0%float.
Proof. reflexivity. Qed.

(** C6, for finite coordinates.  For every [Math] object and all finite
    [lat] and [lon], [calculateDistance lat lon lat lon] is exactly [+0]. *)
Theorem calculateDistance_same_point (lat lon : float) :
  is_finite lat = true -> is_finite lon = true ->
  calculateDistance lat lon lat lon = 0%float.
Proof.
  intros Hlat Hlon. unfold calculateDistance.
  rewrite (sub_diag lat Hlat), (sub_diag lon Hlon), toRad_zero.
  change (0 / 2)%float with 0%float.
  rewrite sin_zero.
  rewrite (cos_term_zero (Math_cos (toRad lat)))
    by (apply cos_range, toRad_finite, Hlat).
  change (0 * 0 + 0)%float with 0%float.
  change (Math_sqrt 0) with 0%float.
  change (Math_sqrt (1 - 0)) with 1%float.
  rewrite atan2_zero by reflexivity.
  reflexivity.
Qed.

End Distance_facts.

(** ** Tactics for the monad *)

(** Unfolds the sequencing of an [async] method. *)
Ltac steps :=
  unfold modify, throw, settle, try_catch, get, mbind, M_bind, mret, M_ret;
  cbn [fst snd dogs users uuid issued now calls with_dogs].

(** Unfolds the storage operations as well. *)
Ltac run :=
  unfold prisma_dog_create, prisma_dog_update, prisma_dog_delete,
    prisma_dog_findUnique, prisma_dog_findFirst, prisma_dog_findMany,
    prisma_dog_count, gen_random_uuid, CURRENT_TIMESTAMP, log;
  steps.

(** ** Binary64 arithmetic on integers *)

(** Up to 2^53 nothing is rounded. *)
Lemma Binary64_round_exact z : Z.abs z <= 2 ^ 53 -> Binary64.round z = z.
Proof.
  intros Hz. destruct (Z.eq_dec (Z.abs z) (2 ^ 53)) as [Heq|Hne].
  - destruct (Z.abs_eq_or_opp z) as [H|H]; rewrite H in Heq.
    + subst z. reflexivity.
    + assert (z = - 2 ^ 53) as -> by lia. reflexivity.
  - unfold Binary64.round.
    assert (Hlog : Z.log2 (Z.abs z) < 53).
    { destruct (Z.eq_dec (Z.abs z) 0) as [->|Hpos]; [reflexivity|].
      apply Z.log2_lt_pow2; lia. }
    now rewrite (proj2 (Z.leb_le _ 0)) by lia.
Qed.


(** The [skip] of [findAll]: exact while the product is at most 2^53, and
    at least 2^53 from there on. *)
Lemma findAll_skip_exact p l :
  1 <= p -> 1 <= l -> (p - 1) * l <= 2 ^ 53 ->
  Binary64.mul (Binary64.sub p 1) l = (p - 1) * l.
Proof.
  intros Hp Hl Hskip. unfold Binary64.mul, Binary64.sub.
  rewrite (Binary64_round_exact (p - 1)) by nia.
  apply Binary64_round_exact. nia.
Qed.



(** The rounding agrees with the primitive binary64 operations: on the
    product that first shows it, on ties that go down and up, on a sum of
    squares far beyond 2^53, and where nothing is rounded. *)
Example Binary64_agrees_with_primitive :
  Binary64.integer_of ((94906268 - 1) * 94906267)%float =
    Some (Binary64.mul (Binary64.sub 94906268 1) 94906267) /\
  Binary64.mul (Binary64.sub 94906268 1) 94906267 = 9007199515875288 /\
  Binary64.integer_of (3002399751580331 * 3)%float =
    Some (Binary64.mul 3002399751580331 3) /\
  Binary64.integer_of (3002399751580333 * 3)%float =
    Some (Binary64.mul 3002399751580333 3) /\
  Binary64.integer_of (9007199254740991 * 9007199254740989)%float =
    Some (Binary64.mul 9007199254740991 9007199254740989) /\
  Binary64.integer_of (12345 * 6789)%float = Some (Binary64.mul 12345 6789).
Proof. vm_compute. repeat split. Qed.

Section Service_facts.
Context {db : Database}.

(** ** The storage model *)

Lemma matches_owned_by id userId d :
  matches (DogService.owned_by id userId) d =
  String.eqb id (Dog.id d) && String.eqb userId (Dog.userId d).
Proof. cbn. now rewrite !andb_true_r. Qed.

Lemma select_rows_In w (t : gmap string Dog.t) d :
  In d (select_rows w t) <->
  In d (map_to_list t).*2 /\ if_present w (fun w => matches w d) = true.
Proof. unfold select_rows. apply filter_In. Qed.

Lemma In_rows (t : gmap string Dog.t) d : In d (map_to_list t).*2 <-> exists k, t !! k = Some d.
Proof.
  rewrite <- list_elem_of_In, list_elem_of_fmap. split.
  - intros ([k d'] & -> & Hin). exists k. now apply elem_of_map_to_list.
  - intros [k Hk]. exists (k, d). split; [reflexivity|]. now apply elem_of_map_to_list.
Qed.


Lemma findFirst_Some id userId w d :
  head (select_rows (Some (DogService.owned_by id userId)) (dogs w)) = Some d ->
  In d (rows w) /\ Dog.id d = id /\ Dog.userId d = userId.
Proof.
  intros Hh. apply head_Some in Hh as [l Hl].
  assert (Hd : In d (select_rows (Some (DogService.owned_by id userId)) (dogs w)))
    by (rewrite Hl; now left).
  apply select_rows_In in Hd as [Hin Hm]. cbn [if_present] in Hm.
  rewrite matches_owned_by in Hm. apply andb_prop in Hm as [Hi Hu].
  apply String.eqb_eq in Hi, Hu. auto.
Qed.


Lemma apply_update_userId data t d :
  Dog.userId (apply_update data t d) = Dog.userId d.
Proof. reflexivity. Qed.

Lemma apply_update_id data t d : Dog.id (apply_update data t d) = Dog.id d.
Proof. reflexivity. Qed.

(** C9.  Whenever [update] succeeds, the row it returns (and stores) has the
    owner of the row stored under that id before the call. *)
Theorem update_preserves_owner (id userId : string) (input : UpdateDogInput.t)
    (w w' : World) (updated : DogWith UserIdNameEmail.t) :
  DogService.update id userId input w = (Return updated, w') ->
  exists original,
    dogs w !! id = Some original /\
    dogs w' !! id = Some (row updated) /\
    Dog.userId (row updated) = Dog.userId original /\
    (primary_key (dogs w) -> Dog.userId original = userId).
Proof.
  unfold DogService.update. run.
  destruct (head _) as [found|] eqn:Hfound; [|discriminate]. cbn.
  destruct (dogs w !! id) as [original|] eqn:Horig; [|discriminate].
  destruct (update_fits input); [|discriminate]. cbn.
  intros [= <- <-]. exists original. cbn.
  repeat split.
  - apply lookup_insert_eq.
  - intros Hpk. apply findFirst_Some in Hfound as (Hin & Hid & Hu).
    apply In_rows in Hin as [k Hk]. pose proof (Hpk _ _ Hk) as Hkey.
    assert (k = id) by congruence. subst k. congruence.
Qed.

(** The owner's update is accepted, if its values fit their columns. *)
Lemma update_by_owner (id userId : string) (input : UpdateDogInput.t)
    (w : World) (original : Dog.t) :
  primary_key (dogs w) ->
  dogs w !! id = Some original -> Dog.userId original = userId ->
  update_fits input = true ->
  exists updated w', DogService.update id userId input w = (Return updated, w').
Proof.
  intros Hpk Horig Hu Hfits. unfold DogService.update. run.
  destruct (head _) as [found|] eqn:Hfound.
  - cbn. rewrite Horig, Hfits. cbn. eauto.
  - exfalso.
    assert (Hin : In original (select_rows (Some (DogService.owned_by id userId)) (dogs w))).
    { apply select_rows_In. split; [apply In_rows; eauto|].
      cbn [if_present]. rewrite matches_owned_by.
      rewrite (Hpk _ _ Horig), Hu, !String.eqb_refl. reflexivity. }
    destruct (select_rows _ _); [destruct Hin | discriminate].
Qed.

(** ** [create] and the breed prediction *)

Lemma prisma_dog_create_calls {A} data (proj : World -> Dog.t -> A) w :
  calls (snd (prisma_dog_create data proj w)) = calls w ++ [dog_create data].
Proof.
  run. destruct (create_fits data); [|reflexivity]. cbn.
  destruct (users w !! _); [|reflexivity]. cbn.
  destruct (dogs w !! _); reflexivity.
Qed.

Lemma prisma_dog_update_calls {A} id data (proj : World -> Dog.t -> A) w :
  calls (snd (prisma_dog_update id data proj w)) = calls w ++ [dog_update id data].
Proof.
  run. destruct (dogs w !! _); [|reflexivity].
  destruct (update_fits data); reflexivity.
Qed.

Section Create_facts.
Context {mlService : MLService}.

Lemma mlService_predictBreed_eq imageUrl dogId w :
  DogService.mlService_predictBreed imageUrl dogId w =
  (predictBreed imageUrl dogId, logged (ml_predictBreed imageUrl dogId) w).
Proof. reflexivity. Qed.

(** [create] once the row exists and the prediction brings no breed. *)
Lemma create_without_breed (input : CreateDogInput.t)
    (w w1 : World) (created : DogWith UserIdNameEmail.t) :
  prisma_dog_create (DogService.create_data input)
    (include_user select_id_name_email) w = (Return created, w1) ->
  no_breed (predictBreed (JS.string_of (CreateDogInput.imageUrl input))
              (Dog.id (row created))) ->
  DogService.create input w =
    (Return created,
     if JS.truthy (CreateDogInput.imageUrl input)
        && negb (JS.truthy (CreateDogInput.breed input))
     then logged (ml_predictBreed (JS.string_of (CreateDogInput.imageUrl input))
                    (Dog.id (row created))) w1
     else w1).
Proof.
  intros Hcreate Hfail.
  unfold DogService.create. steps. rewrite Hcreate.
  destruct (JS.truthy (CreateDogInput.imageUrl input)
            && negb (JS.truthy (CreateDogInput.breed input))); [|reflexivity].
  rewrite mlService_predictBreed_eq.
  destruct (predictBreed _ _) as [prediction|e]; [|reflexivity].
  cbn in Hfail. rewrite Hfail. reflexivity.
Qed.

(** C4.  For an input with an image and without a breed: once the row is
    created, a prediction that rejects or brings no breed changes nothing.
    [create] returns the row as it was created and throws nothing; the
    tables stay as the creation left them, and the only further call is the
    prediction itself. *)
Theorem create_survives_failed_prediction (input : CreateDogInput.t)
    (w w1 : World) (created : DogWith UserIdNameEmail.t) :
  JS.truthy (CreateDogInput.imageUrl input) = true ->
  JS.truthy (CreateDogInput.breed input) = false ->
  prisma_dog_create (DogService.create_data input)
    (include_user select_id_name_email) w = (Return created, w1) ->
  no_breed (predictBreed (JS.string_of (CreateDogInput.imageUrl input))
              (Dog.id (row created))) ->
  let w' := logged (ml_predictBreed (JS.string_of (CreateDogInput.imageUrl input))
                      (Dog.id (row created))) w1 in
  DogService.create input w = (Return created, w') /\
  dogs w' = dogs w1 /\ users w' = users w1 /\
  new_calls w1 w' = [ml_predictBreed (JS.string_of (CreateDogInput.imageUrl input))
                       (Dog.id (row created))].
Proof.
  intros Himg Hbreed Hcreate Hfail w'.
  rewrite (create_without_breed input w w1 created Hcreate Hfail), Himg, Hbreed.
  repeat split. unfold new_calls, w'. cbn [logged log snd calls].
  apply drop_app_length.
Qed.

(** C7.  A breed that is supplied (a non-empty string) keeps the prediction
    collaborator out of [create]: the only call is the row creation.  A
    prediction is only ever requested for an input with an image and
    without a breed, and then for that image. *)
Theorem create_predicts_only_without_breed (input : CreateDogInput.t) (w : World) :
  let w' := snd (DogService.create input w) in
  (JS.truthy (CreateDogInput.breed input) = true ->
   new_calls w w' = [dog_create (DogService.create_data input)]) /\
  (forall imageUrl dogId,
     In (ml_predictBreed imageUrl dogId) (new_calls w w') ->
     JS.truthy (CreateDogInput.imageUrl input) = true /\
     JS.truthy (CreateDogInput.breed input) = false /\
     imageUrl = JS.string_of (CreateDogInput.imageUrl input)).
Proof.
  cbv zeta. unfold new_calls, DogService.create. steps.
  pose proof (prisma_dog_create_calls (DogService.create_data input)
                (include_user select_id_name_email) w) as Hcalls.
  destruct (prisma_dog_create _ _ w) as [[created|e] w1]; cbn [snd] in Hcalls.
  2:{ cbn [snd]. rewrite Hcalls, drop_app_length. split; [reflexivity|].
      intros ? ? [[=]|[]]. }
  destruct (JS.truthy (CreateDogInput.imageUrl input)) eqn:Himg;
    destruct (JS.truthy (CreateDogInput.breed input)) eqn:Hbreed; cbn [andb negb snd];
    try (rewrite Hcalls, drop_app_length; split; [reflexivity|]; intros ? ? [[=]|[]]).
  split; [discriminate|]. intros imageUrl dogId.
  rewrite mlService_predictBreed_eq.
  destruct (predictBreed _ _) as [prediction|e]; cbn [snd].
  - destruct (JS.truthy (PredictionResult.breed prediction)).
    + pose proof (prisma_dog_update_calls (Dog.id (row created))
        (UpdateDogInput.only_breed (JS.string_of (PredictionResult.breed prediction)))
        (include_user select_id_name_email)
        (logged (ml_predictBreed (JS.string_of (CreateDogInput.imageUrl input))
                   (Dog.id (row created))) w1)) as Hu.
      destruct (prisma_dog_update _ _ _ _) as [[updated|e] w2]; cbn [snd] in Hu |- *;
        rewrite Hu; cbn [logged log snd calls]; rewrite Hcalls, <- !app_assoc, drop_app_length;
        intros [[=]|[[= <- <-]|[[=]|[]]]]; auto.
    + cbn [logged log snd calls]. rewrite Hcalls, <- !app_assoc, drop_app_length.
      intros [[=]|[[= <- <-]|[]]]; auto.
  - cbn [logged log snd calls]. rewrite Hcalls, <- !app_assoc, drop_app_length.
    intros [[=]|[[= <- <-]|[]]]; auto.
Qed.

End Create_facts.

(** ** Queries *)

Lemma order_rows_Permutation n o l : order_rows n o l ≡ₚ l.
Proof. destruct o as [o|]; [apply order_by_Permutation|reflexivity]. Qed.

Lemma order_rows_In n o l d : In d (order_rows n o l) <-> In d l.
Proof. rewrite <- !list_elem_of_In. now rewrite order_rows_Permutation. Qed.

Lemma order_rows_desc_sorted n l :
  StronglySorted newest_first (order_rows n (Some desc) l).
Proof. apply (order_by_sorted n desc). Qed.

Lemma next_query_logged c w : length (calls (logged c w)) = next_query w.
Proof. unfold next_query. cbn. rewrite length_app. cbn. lia. Qed.

Lemma window_In {A} skip take (l : list A) x : In x (window skip take l) -> In x l.
Proof.
  unfold window. rewrite <- !list_elem_of_In. destruct take as [n|].
  - destruct (0 <=? n).
    + intros H. eapply subseteq_drop, subseteq_take, H.
    + rewrite elem_of_reverse. intros H.
      eapply elem_of_reverse, subseteq_drop, subseteq_take, H.
  - apply subseteq_drop.
Qed.

Lemma StronglySorted_take {A} (R : relation A) n l :
  StronglySorted R l -> StronglySorted R (firstn n l).
Proof.
  intros Hl. revert n. induction Hl as [|x l Hl IH Hx]; intros [|n]; cbn;
    try constructor; [apply IH|].
  rewrite Forall_forall in *. intros y Hy. eapply Hx, subseteq_take, Hy.
Qed.

(** What [findMany] answers when [skip] is absent or non-negative. *)
Lemma prisma_dog_findMany_eq {A} args (proj : World -> Dog.t -> A) w :
  0 <= default 0 (FindManyArgs.skip args) ->
  prisma_dog_findMany args proj w =
  (Return (proj (logged (dog_findMany args) w) <$>
           window (default 0 (FindManyArgs.skip args)) (FindManyArgs.take args)
             (order_rows (next_query w) (FindManyArgs.orderBy args)
                (select_rows (FindManyArgs.where_ args) (dogs w)))),
   logged (dog_findMany args) w).
Proof.
  intros Hskip. rewrite <- (next_query_logged (dog_findMany args) w).
  run. rewrite (proj2 (Z.ltb_ge _ _) Hskip). reflexivity.
Qed.

Lemma prisma_dog_count_eq w :
  prisma_dog_count w = (Return (Z.of_nat (size (dogs w))), logged dog_count w).
Proof. reflexivity. Qed.

(** ** [search] *)

Section Search_facts.
Context {math : MathObject}.

Lemma search_eq filters w :
  let found := snd (log (dog_findMany
       {| FindManyArgs.where_ := Some (DogService.search_where filters);
          FindManyArgs.orderBy := Some desc;
          FindManyArgs.skip := None;
          FindManyArgs.take := None |}) w) in
  let dogs :=
    include_user select_id_name w <$>
      order_rows (next_query w) (Some desc)
        (select_rows (Some (DogService.search_where filters)) (dogs w)) in
  DogService.search filters w =
  (Return
     match SearchFilters.latitude filters, SearchFilters.longitude filters,
           SearchFilters.radiusKm filters with
     | Some latitude, Some longitude, Some radiusKm =>
         if JS.truthy_number radiusKm
         then List.filter (DogService.within latitude longitude radiusKm) dogs
         else dogs
     | _, _, _ => dogs
     end, found).
Proof.
  cbv zeta. unfold DogService.search. steps.
  rewrite prisma_dog_findMany_eq by (cbn; lia).
  cbn [FindManyArgs.where_ FindManyArgs.orderBy FindManyArgs.skip FindManyArgs.take
       default window from_option].
  change (drop (Z.to_nat 0) ?l) with l.
  destruct (SearchFilters.latitude filters), (SearchFilters.longitude filters),
    (SearchFilters.radiusKm filters) as [r|]; try reflexivity.
  destruct (JS.truthy_number r); reflexivity.
Qed.

(** C1, for a truthy radius.  With latitude and longitude present and a
    radius that is present and truthy (neither zero nor NaN), [search]
    returns, and every record it returns lies within the radius: its
    computed distance from the given point is at most [radiusKm]. *)
Theorem search_within_radius (filters : SearchFilters.t) (w : World)
    (latitude longitude radiusKm : float) :
  SearchFilters.latitude filters = Some latitude ->
  SearchFilters.longitude filters = Some longitude ->
  SearchFilters.radiusKm filters = Some radiusKm ->
  JS.truthy_number radiusKm = true ->
  exists result w',
    DogService.search filters w = (Return result, w') /\
    forall d, In d result ->
      (calculateDistance latitude longitude
         (Dog.latitude (row d)) (Dog.longitude (row d)) <=? radiusKm)%float = true.
Proof.
  intros Hlat Hlon Hr Htruthy. rewrite search_eq, Hlat, Hlon, Hr, Htruthy.
  eexists _, _. split; [reflexivity|].
  intros d [_ Hd]%filter_In. exact Hd.
Qed.

(** A radius of zero (or NaN) switches the radius filter off. *)
Lemma search_falsy_radius (filters : SearchFilters.t) (w : World) (radiusKm : float) :
  SearchFilters.radiusKm filters = Some radiusKm ->
  JS.truthy_number radiusKm = false ->
  fst (DogService.search filters w) =
  Return (include_user select_id_name w <$>
            order_rows (next_query w) (Some desc)
              (select_rows (Some (DogService.search_where filters)) (dogs w))).
Proof.
  intros Hr Hfalsy. rewrite search_eq, Hr, Hfalsy. cbn [fst].
  now destruct (SearchFilters.latitude filters), (SearchFilters.longitude filters).
Qed.

(** The [where] object, key by key. *)
Lemma search_where_breed filters :
  DogWhereInput.breed (DogService.search_where filters) =
  if JS.truthy (SearchFilters.breed filters)
  then Some (contains_insensitive (JS.string_of (SearchFilters.breed filters)))
  else None.
Proof.
  unfold DogService.search_where.
  destruct (JS.truthy (SearchFilters.breed filters)),
    (JS.truthy (SearchFilters.size filters)),
    (JS.truthy (SearchFilters.status filters)),
    (JS.truthy (SearchFilters.query filters)); reflexivity.
Qed.

Lemma search_where_OR filters :
  DogWhereInput.OR (DogService.search_where filters) =
  if JS.truthy (SearchFilters.query filters)
  then Some
    [ DogWhereInput.set_description
        (contains_insensitive (JS.string_of (SearchFilters.query filters)))
        DogWhereInput.empty;
      DogWhereInput.set_breed
        (contains_insensitive (JS.string_of (SearchFilters.query filters)))
        DogWhereInput.empty;
      DogWhereInput.set_color
        (contains_insensitive (JS.string_of (SearchFilters.query filters)))
        DogWhereInput.empty ]
  else None.
Proof.
  unfold DogService.search_where.
  destruct (JS.truthy (SearchFilters.breed filters)),
    (JS.truthy (SearchFilters.size filters)),
    (JS.truthy (SearchFilters.status filters)),
    (JS.truthy (SearchFilters.query filters)); reflexivity.
Qed.

Lemma matches_breed wh d f :
  matches wh d = true -> DogWhereInput.breed wh = Some f ->
  string_filter_matches f (Dog.breed d) = true.
Proof.
  destruct wh as [or i u st sz de br co la lo]. cbn [matches DogWhereInput.breed].
  intros Hm ->. cbn [if_present] in Hm.
  repeat (apply andb_prop in Hm as [Hm ?]). assumption.
Qed.

Lemma search_result_matches filters w result w' x :
  DogService.search filters w = (Return result, w') -> In x result ->
  In (row x) (rows w) /\ matches (DogService.search_where filters) (row x) = true.
Proof.
  rewrite search_eq. intros [= <- _] Hx.
  assert (Hin : In x (include_user select_id_name w <$>
            order_rows (next_query w) (Some desc)
              (select_rows (Some (DogService.search_where filters)) (dogs w)))).
  { destruct (SearchFilters.latitude filters), (SearchFilters.longitude filters),
      (SearchFilters.radiusKm filters) as [r|]; try exact Hx.
    destruct (JS.truthy_number r); [|exact Hx].
    now apply filter_In in Hx as [Hx _]. }
  rewrite <- list_elem_of_In, list_elem_of_fmap in Hin. destruct Hin as (d & -> & Hd).
  rewrite list_elem_of_In in Hd.
  apply order_rows_In, select_rows_In in Hd as [Hd Hm]. auto.
Qed.

(** C3, whether or not a query is given.  The breed clause depends on the
    breed filter alone: it is compiled exactly when [breed] is truthy,
    whether or not [query] is, and then every returned record has a breed
    that contains the given string, case-insensitively: after the case
    folding of the database, whatever it is.  The [OR] clause depends on
    [query] alone. *)
Theorem search_breed_filter (filters : SearchFilters.t) :
  DogWhereInput.breed (DogService.search_where filters) =
    (if JS.truthy (SearchFilters.breed filters)
     then Some (contains_insensitive (JS.string_of (SearchFilters.breed filters)))
     else None) /\
  (is_Some (DogWhereInput.OR (DogService.search_where filters)) <->
   JS.truthy (SearchFilters.query filters) = true) /\
  forall w result w' d,
    JS.truthy (SearchFilters.breed filters) = true ->
    DogService.search filters w = (Return result, w') -> In d result ->
    exists b, Dog.breed (row d) = Some b /\
      JS.includes (lower (JS.string_of (SearchFilters.breed filters)))
                  (lower b) = true.
Proof.
  split; [apply search_where_breed|]. split.
  - rewrite search_where_OR. destruct (JS.truthy (SearchFilters.query filters)).
    + split; eauto.
    + split; [intros [? [=]] | discriminate].
  - intros w result w' d Hb Hs Hd.
    destruct (search_result_matches _ _ _ _ _ Hs Hd) as [_ Hm].
    pose proof (search_where_breed filters) as Hbr. rewrite Hb in Hbr.
    pose proof (matches_breed _ _ _ Hm Hbr) as Hf. cbn in Hf.
    destruct (Dog.breed (row d)) as [b|]; [eauto | discriminate].
Qed.

End Search_facts.

Section Search_empty.
Context {math : MathObject}.

(** C10.  An empty-string [query], [status], [size] or [breed] compiles no
    clause, and [search] answers exactly as it does when the field is
    absent. *)
Theorem search_empty_string_is_absent (filters : SearchFilters.t) (w : World) :
  (DogService.search (SearchFilters.with_query (Some "") filters) w =
     DogService.search (SearchFilters.with_query None filters) w /\
   DogService.search (SearchFilters.with_status (Some "") filters) w =
     DogService.search (SearchFilters.with_status None filters) w /\
   DogService.search (SearchFilters.with_size (Some "") filters) w =
     DogService.search (SearchFilters.with_size None filters) w /\
   DogService.search (SearchFilters.with_breed (Some "") filters) w =
     DogService.search (SearchFilters.with_breed None filters) w) /\
  (DogWhereInput.OR (DogService.search_where (SearchFilters.with_query (Some "") filters)) = None /\
   DogWhereInput.status (DogService.search_where (SearchFilters.with_status (Some "") filters)) = None /\
   DogWhereInput.size (DogService.search_where (SearchFilters.with_size (Some "") filters)) = None /\
   DogWhereInput.breed (DogService.search_where (SearchFilters.with_breed (Some "") filters)) = None).
Proof.
  split; [repeat split; reflexivity|].
  unfold DogService.search_where. cbn.
  destruct (JS.truthy (SearchFilters.breed filters)),
    (JS.truthy (SearchFilters.size filters)),
    (JS.truthy (SearchFilters.status filters)),
    (JS.truthy (SearchFilters.query filters)); repeat split.
Qed.

End Search_empty.

(** ** [getForMap] *)

(** C8.  [getForMap] returns at most 100 markers, newest first: the first
    hundred of the matching rows in descending order of creation, as the
    database orders them for this query.  Given bounds, every marker lies
    inside them, both ends included. *)
Theorem getForMap_capped_sorted_bounded (bounds : option Bounds.t) (w : World) :
  exists markers w',
    DogService.getForMap bounds w = (Return markers, w') /\
    (length markers <= 100)%nat /\
    StronglySorted marker_newest_first markers /\
    markers = select_marker w <$>
      firstn 100 (order_rows (next_query w) (Some desc)
                    (select_rows (Some (DogService.map_where bounds)) (dogs w))) /\
    (forall m, In m markers -> exists d, In d (rows w) /\ m = select_marker w d) /\
    (forall b m, bounds = Some b -> In m markers ->
       ((Bounds.south b <=? Marker.latitude m) && (Marker.latitude m <=? Bounds.north b)
        && (Bounds.west b <=? Marker.longitude m) && (Marker.longitude m <=? Bounds.east b))%float
       = true).
Proof.
  unfold DogService.getForMap.
  rewrite prisma_dog_findMany_eq by (cbn; lia).
  cbn [FindManyArgs.where_ FindManyArgs.orderBy FindManyArgs.skip FindManyArgs.take
       default window from_option Z.leb Z.compare].
  change (drop (Z.to_nat 0) ?l) with l. change (Z.to_nat 100) with 100%nat.
  set (matching := order_rows _ _ _).
  assert (Hrow : forall m, In m (select_marker w <$> firstn 100 matching) ->
            exists d, In d (select_rows (Some (DogService.map_where bounds)) (dogs w)) /\
                      m = select_marker w d).
  { intros m Hm. rewrite <- list_elem_of_In, list_elem_of_fmap in Hm.
    destruct Hm as (d & -> & Hd). exists d. split; [|reflexivity].
    apply (order_rows_In (next_query w) (Some desc)), list_elem_of_In.
    eapply subseteq_take, Hd. }
  eexists _, _. split; [reflexivity|]. repeat split.
  - rewrite length_fmap, length_take. lia.
  - apply (StronglySorted_fmap _ newest_first); [auto|].
    apply StronglySorted_take, order_rows_desc_sorted.
  - intros m Hm. destruct (Hrow m Hm) as (d & Hd & ->).
    apply select_rows_In in Hd as [Hd _]. eauto.
  - intros b m -> Hm. destruct (Hrow m Hm) as (d & Hd & ->).
    apply select_rows_In in Hd as [_ Hd]. cbn in Hd.
    unfold float_filter_matches in Hd. cbn [gte lte] in Hd.
    cbn [select_marker Marker.latitude Marker.longitude].
    rewrite <- andb_assoc. exact Hd.
Qed.

(** ** [findAll] *)

(** [Math.ceil(a / b)] for a positive divisor is the least integer [k] with
    [a <= k * b]. *)
Lemma Math_ceil_div (a b : Z) :
  0 < b ->
  exists k, Num.Math_ceil (Num.div a b) = Num.of_int k /\
            (k - 1) * b < a <= k * b.
Proof.
  intros Hb. unfold Num.div. rewrite (proj2 (Z.eqb_neq b 0)) by lia.
  cbn [Num.Math_ceil]. eexists. split; [reflexivity|].
  destruct b as [|p|p]; try lia.
  unfold Qceiling, Qfloor, Qdiv, Qmult, Qinv, Qopp, inject_Z. cbn [Qnum Qden].
  rewrite Z.mul_1_r, Pos.mul_1_l.
  pose proof (Z.div_mod (- a) (Zpos p) ltac:(lia)) as Hdm.
  pose proof (Z.mod_pos_bound (- a) (Zpos p) ltac:(lia)) as Hmod.
  nia.
Qed.

Lemma rows_size w : length (rows w) = size (dogs w).
Proof. unfold rows. now rewrite length_fmap, length_map_to_list. Qed.

Lemma select_rows_all (t : gmap string Dog.t) : select_rows None t = (map_to_list t).*2.
Proof.
  unfold select_rows. cbn [if_present].
  induction ((map_to_list t).*2) as [|d l IH]; cbn; congruence.
Qed.

Section FindAll_facts.
Context {math : MathObject}.

(** C2, within the integers binary64 holds exactly.  For a page number and
    a page size of at least one (given or defaulted to 1 and 50), with the
    page size and [(page - 1) * limit] at most 2^53, [findAll] asks the
    storage for the rows in descending order of creation,
    [(page - 1) * limit] of them passed over and at most [limit] kept, and
    for the row count, and returns that page: [total] is the number of
    stored rows and [totalPages] is the ceiling of [total / limit].  On an
    empty table the page is empty and [totalPages] is 0. *)
Theorem findAll_page (page limit : option Z) (w : World) :
  let p := default 1 page in
  let l := default 50 limit in
  1 <= p -> 1 <= l -> l <= 2 ^ 53 -> (p - 1) * l <= 2 ^ 53 ->
  exists result w',
    DogService.findAll page limit w = (Return result, w') /\
    new_calls w w' =
      [ dog_findMany {| FindManyArgs.where_ := None;
                        FindManyArgs.orderBy := Some desc;
                        FindManyArgs.skip := Some ((p - 1) * l);
                        FindManyArgs.take := Some l |};
        dog_count ] /\
    dogs w' = dogs w /\
    let newest := order_rows (next_query w) (Some desc) (rows w) in
    StronglySorted newest_first newest /\ newest ≡ₚ rows w /\
    DogPage.dogs result =
      include_user select_id_name w <$>
        firstn (Z.to_nat l) (drop (Z.to_nat ((p - 1) * l)) newest) /\
    (length (DogPage.dogs result) <= Z.to_nat l)%nat /\
    Pagination.page (DogPage.pagination result) = p /\
    Pagination.limit (DogPage.pagination result) = l /\
    Pagination.total (DogPage.pagination result) = Z.of_nat (length (rows w)) /\
    (exists k,
       Pagination.totalPages (DogPage.pagination result) = Num.of_int k /\
       (k - 1) * l < Z.of_nat (length (rows w)) <= k * l) /\
    (rows w = [] ->
       DogPage.dogs result = [] /\
       Pagination.totalPages (DogPage.pagination result) = Num.of_int 0).
Proof.
  intros p l Hp Hl _ Hskip. unfold DogService.findAll. fold p l.
  rewrite (findAll_skip_exact p l Hp Hl Hskip). steps.
  unfold Promise_all.
  rewrite prisma_dog_findMany_eq by (cbn; nia). cbn [fst snd].
  rewrite prisma_dog_count_eq.
  cbn [FindManyArgs.where_ FindManyArgs.orderBy FindManyArgs.skip FindManyArgs.take
       default window from_option logged log snd dogs].
  rewrite (proj2 (Z.leb_le 0 l)) by lia.
  rewrite select_rows_all, <- rows_size. fold (rows w).
  destruct (Math_ceil_div (Z.of_nat (length (rows w))) l ltac:(lia)) as (k & Hk & Hbounds).
  eexists _, _. split; [reflexivity|]. cbv zeta.
  cbn [DogPage.dogs DogPage.pagination Pagination.page Pagination.limit
       Pagination.total Pagination.totalPages].
  split.
  { unfold new_calls. cbn [calls]. rewrite <- app_assoc. apply drop_app_length. }
  split; [reflexivity|].
  split; [apply order_rows_desc_sorted|].
  split; [apply order_rows_Permutation|].
  split; [reflexivity|].
  split; [rewrite length_fmap, length_take; lia|].
  do 3 (split; [reflexivity|]).
  split; [eauto|].
  intros Hempty. rewrite Hempty.
  split.
  { pose proof (order_rows_Permutation (next_query w) (Some desc) []) as Hnil.
    apply Permutation_nil_r in Hnil. rewrite Hnil.
    now destruct (Z.to_nat _), (Z.to_nat _). }
  cbn [length Z.of_nat]. unfold Num.div. rewrite (proj2 (Z.eqb_neq l 0)) by lia.
  reflexivity.
Qed.

End FindAll_facts.

(** ** The HTTP collaborator never rejects *)

Lemma MLService_predictBreed_resolves fetch imageUrl dogId :
  exists prediction, MLService_predictBreed fetch imageUrl dogId = Return prediction.
Proof.
  unfold MLService_predictBreed.
  destruct (fetch dogId imageUrl) as [|[|] [body|]]; eauto.
Qed.

Lemma MLService_predictBreed_unavailable fetch imageUrl dogId :
  fetch dogId imageUrl = Fetch.rejects ->
  no_breed (MLService_predictBreed fetch imageUrl dogId).
Proof. intros Hf. unfold MLService_predictBreed. rewrite Hf. reflexivity. Qed.

(** ** The primary key is an invariant of the service *)

Lemma primary_key_insert (t : gmap string Dog.t) d :
  primary_key t -> primary_key (<[Dog.id d := d]> t).
Proof.
  intros Hpk k d'. rewrite lookup_insert. case_decide.
  - now intros [= <-].
  - apply Hpk.
Qed.

Lemma primary_key_delete (t : gmap string Dog.t) k :
  primary_key t -> primary_key (delete k t).
Proof.
  intros Hpk k' d. rewrite lookup_delete. case_decide; [discriminate|apply Hpk].
Qed.

Lemma update_primary_key id userId input w :
  primary_key (dogs w) ->
  primary_key (dogs (snd (DogService.update id userId input w))).
Proof.
  intros Hpk. unfold DogService.update. run.
  destruct (head _); [|exact Hpk]. cbn.
  destruct (dogs w !! id) as [d|] eqn:Hd; [|exact Hpk].
  destruct (update_fits input); [|exact Hpk]. cbn.
  rewrite <- (Hpk _ _ Hd) at 1.
  apply (primary_key_insert _ (apply_update input (now w) d)), Hpk.
Qed.

Lemma delete_primary_key id userId w :
  primary_key (dogs w) ->
  primary_key (dogs (snd (DogService.delete id userId w))).
Proof.
  intros Hpk. unfold DogService.delete. run.
  destruct (head _); [|exact Hpk]. cbn.
  destruct (dogs w !! id); [|exact Hpk]. cbn.
  apply primary_key_delete, Hpk.
Qed.

(** With the HTTP collaborator out of reach, [create] returns the row as it
    was created. *)
Lemma create_with_unreachable_predictor fetch (input : CreateDogInput.t)
    (w w1 : World) (created : DogWith UserIdNameEmail.t) :
  (forall imageUrl dogId, fetch dogId imageUrl = Fetch.rejects) ->
  prisma_dog_create (DogService.create_data input)
    (include_user select_id_name_email) w = (Return created, w1) ->
  fst (DogService.create (mlService := http_MLService fetch) input w) = Return created.
Proof.
  intros Hfetch Hcreate.
  rewrite (create_without_breed (mlService := http_MLService fetch)
             input w w1 created Hcreate).
  - reflexivity.
  - apply MLService_predictBreed_unavailable, Hfetch.
Qed.

(** * Further properties of the service *)

(** ** What the storage operations leave behind *)

(** A successful [prisma.dog.create]: the new row sits under a fresh id, with
    the owner's columns attached. *)
Lemma prisma_dog_create_Return {U} data (select : User.t -> U) w created w1 :
  prisma_dog_create data (include_user select) w = (Return created, w1) ->
  let id := uuid w (issued w) in
  dogs w !! id = None /\
  row created = new_row id (now w) data /\
  user created = select <$> users w !! CreateDogInput.userId data /\
  dogs w1 = <[id := row created]> (dogs w) /\
  users w1 = users w /\
  now w1 = now w + 1 /\
  calls w1 = calls w ++ [dog_create data].
Proof.
  run. destruct (create_fits data); [|discriminate]. cbn.
  destruct (users w !! _) as [owner|] eqn:Howner; [|discriminate]. cbn.
  destruct (dogs w !! _) eqn:Hfresh; [discriminate|]. cbn.
  intros [= <- <-]. cbn. unfold include_user. cbn. rewrite Howner. repeat split.
Qed.

(** A [prisma.dog.create] that throws has stored nothing. *)
Lemma prisma_dog_create_Throw {A} data (proj : World -> Dog.t -> A) w e w1 :
  prisma_dog_create data proj w = (Throw e, w1) ->
  dogs w1 = dogs w /\ users w1 = users w.
Proof.
  run. destruct (create_fits data); [|intros [= <- <-]; split; reflexivity]. cbn.
  destruct (users w !! _); [|intros [= <- <-]; split; reflexivity]. cbn.
  destruct (dogs w !! _); [intros [= <- <-]; split; reflexivity|discriminate].
Qed.

Lemma prisma_dog_update_Return {U} id data (select : User.t -> U) w updated w1 :
  prisma_dog_update id data (include_user select) w = (Return updated, w1) ->
  exists d,
    dogs w !! id = Some d /\
    row updated = apply_update data (now w) d /\
    user updated = select <$> users w !! Dog.userId d /\
    dogs w1 = <[id := row updated]> (dogs w) /\
    users w1 = users w /\
    calls w1 = calls w ++ [dog_update id data].
Proof.
  run. destruct (dogs w !! id) as [d|] eqn:Hd; [|discriminate].
  destruct (update_fits data); [|discriminate]. cbn.
  intros [= <- <-]. exists d. cbn. repeat split.
Qed.

Lemma prisma_dog_update_Return_fits {A} id data (proj : World -> Dog.t -> A) w updated w1 :
  prisma_dog_update id data proj w = (Return updated, w1) -> update_fits data = true.
Proof.
  run. destruct (dogs w !! id); [|discriminate].
  now destruct (update_fits data).
Qed.

(** A [prisma.dog.update] that throws has changed nothing; it throws only
    for an id that is not stored or a value too long for its column. *)
Lemma prisma_dog_update_Throw {U} id data (select : User.t -> U) w e w1 :
  prisma_dog_update id data (include_user select) w = (Throw e, w1) ->
  (update_fits data = true -> dogs w !! id = None) /\
  dogs w1 = dogs w /\ users w1 = users w.
Proof.
  run. destruct (dogs w !! id) as [d|] eqn:Hd.
  - destruct (update_fits data); [discriminate|].
    intros [= <- <-]. repeat split. discriminate.
  - intros [= <- <-]. repeat split.
Qed.

(** ** [create] *)

Section Create_more.
Context {mlService : MLService}.

Lemma update_fits_only_breed breed :
  update_fits (UpdateDogInput.only_breed breed) = VARCHAR 100 (Some breed).
Proof.
  unfold update_fits, UpdateDogInput.only_breed.
  cbn [UpdateDogInput.imageUrl UpdateDogInput.breed UpdateDogInput.color
       UpdateDogInput.size UpdateDogInput.status].
  change (VARCHAR _ None) with true. cbn [andb]. now rewrite !andb_true_r.
Qed.

(** The paths through [create], once the row exists. *)
Lemma create_paths (input : CreateDogInput.t) (w w1 : World)
    (created : DogWith UserIdNameEmail.t) :
  prisma_dog_create (DogService.create_data input) with_owner w = (Return created, w1) ->
  let imageUrl := JS.string_of (CreateDogInput.imageUrl input) in
  let id := Dog.id (row created) in
  let w2 := logged (ml_predictBreed imageUrl id) w1 in
  DogService.create input w =
    if JS.truthy (CreateDogInput.imageUrl input)
       && negb (JS.truthy (CreateDogInput.breed input))
    then
      match predictBreed imageUrl id with
      | Return prediction =>
          if JS.truthy (PredictionResult.breed prediction) then
            match prisma_dog_update id
                    (UpdateDogInput.only_breed
                       (JS.string_of (PredictionResult.breed prediction)))
                    with_owner w2 with
            | (Return updated, w3) => (Return updated, w3)
            | (Throw _, w3) => (Return created, w3)
            end
          else (Return created, w2)
      | Throw _ => (Return created, w2)
      end
    else (Return created, w1).
Proof.
  intros Hcreate. cbv zeta. unfold DogService.create. steps. rewrite Hcreate.
  destruct (_ && _); [|reflexivity].
  rewrite mlService_predictBreed_eq.
  destruct (predictBreed _ _) as [prediction|e]; [|reflexivity].
  destruct (JS.truthy _); [|reflexivity].
  destruct (prisma_dog_update _ _ _ _) as [[updated|e] w3]; reflexivity.
Qed.

(** X1.  An input with an image and without a breed, a row that was created
    and a prediction that brings a breed that fits the column (at most 100
    characters): [create] returns the row with the predicted breed and
    otherwise as it was created, stores it under the same id, and makes
    exactly two further calls, the prediction and the update. *)
Theorem create_with_predicted_breed (input : CreateDogInput.t) (w w1 : World)
    (created : DogWith UserIdNameEmail.t) (prediction : PredictionResult.t) :
  JS.truthy (CreateDogInput.imageUrl input) = true ->
  JS.truthy (CreateDogInput.breed input) = false ->
  prisma_dog_create (DogService.create_data input) with_owner w = (Return created, w1) ->
  predictBreed (JS.string_of (CreateDogInput.imageUrl input)) (Dog.id (row created))
    = Return prediction ->
  JS.truthy (PredictionResult.breed prediction) = true ->
  VARCHAR 100 (PredictionResult.breed prediction) = true ->
  exists updated w',
    DogService.create input w = (Return updated, w') /\
    Dog.breed (row updated) = PredictionResult.breed prediction /\
    same_sighting (row updated) (row created) /\
    user updated = user created /\
    dogs w' = <[Dog.id (row created) := row updated]> (dogs w1) /\
    new_calls w1 w' =
      [ ml_predictBreed (JS.string_of (CreateDogInput.imageUrl input))
          (Dog.id (row created));
        dog_update (Dog.id (row created))
          (UpdateDogInput.only_breed
             (JS.string_of (PredictionResult.breed prediction))) ].
Proof.
  intros Himg Hbreed Hcreate Hpred Htruthy Hfits.
  rewrite (create_paths input w w1 created Hcreate), Himg, Hbreed, Hpred, Htruthy.
  cbn [andb negb].
  destruct (prisma_dog_create_Return _ _ _ _ _ Hcreate)
    as (Hfresh & Hrow & Huser & Hdogs & Husers & _ & _).
  assert (Hid : Dog.id (row created) = uuid w (issued w)) by (rewrite Hrow; reflexivity).
  destruct (prisma_dog_update _ _ _ _) as [[updated|e] w3] eqn:Hupdate.
  - apply prisma_dog_update_Return in Hupdate
      as (d & Hd & Hrow' & Huser' & Hdogs' & Husers' & Hcalls').
    cbn [logged log snd dogs users calls now] in *.
    rewrite Hdogs, Hid, lookup_insert_eq in Hd. injection Hd as <-.
    exists updated, w3. split; [reflexivity|].
    rewrite Hrow'. split.
    { cbn. destruct (PredictionResult.breed prediction); [reflexivity|discriminate]. }
    split; [repeat split|].
    split.
    { rewrite Huser', Husers, Huser, Hrow. reflexivity. }
    split.
    { rewrite Hdogs', Hrow', Hid. reflexivity. }
    unfold new_calls. rewrite Hcalls', <- app_assoc. apply drop_app_length.
  - apply prisma_dog_update_Throw in Hupdate as (Hnone & _).
    cbn [logged log snd dogs] in Hnone.
    rewrite Hdogs, Hid, lookup_insert_eq, update_fits_only_breed in Hnone.
    destruct (PredictionResult.breed prediction) as [b|]; [|discriminate].
    specialize (Hnone Hfits). discriminate.
Qed.

(** X2.  What [create] returns is what [findById] then finds under the id
    of the returned record. *)
Theorem create_then_findById (input : CreateDogInput.t) (w w' : World)
    (dog : DogWith UserIdNameEmail.t) :
  DogService.create input w = (Return dog, w') ->
  fst (DogService.findById (Dog.id (row dog)) w') = Return (Some dog).
Proof.
  destruct (prisma_dog_create (DogService.create_data input) with_owner w)
    as [[created|e] w1] eqn:Hcreate.
  2:{ unfold DogService.create. steps. rewrite Hcreate. discriminate. }
  rewrite (create_paths input w w1 created Hcreate).
  destruct (prisma_dog_create_Return _ _ _ _ _ Hcreate)
    as (Hfresh & Hrow & Huser & Hdogs & Husers & _ & _).
  assert (Hid : Dog.id (row created) = uuid w (issued w)) by (rewrite Hrow; reflexivity).
  assert (Hfound : forall w2, dogs w2 = dogs w1 -> users w2 = users w1 ->
            fst (DogService.findById (Dog.id (row created)) w2) = Return (Some created)).
  { intros w2 Hd Hu. unfold DogService.findById. run. rewrite Hd, Hu, Hdogs, Husers.
    rewrite Hid, lookup_insert_eq. cbn.
    f_equal. f_equal. destruct created as [r u]. cbn in *. unfold include_user.
    rewrite Huser, Hrow. reflexivity. }
  destruct (_ && _).
  - destruct (predictBreed _ _) as [prediction|e].
    + destruct (JS.truthy _).
      * destruct (prisma_dog_update _ _ _ _) as [[updated|e] w3] eqn:Hupdate.
        -- apply prisma_dog_update_Return in Hupdate
             as (d & Hd & Hrow' & Huser' & Hdogs' & Husers' & _).
           intros [= <- <-]. unfold DogService.findById. run.
           assert (Hid' : Dog.id (row updated) = Dog.id (row created)).
           { cbn [logged log snd dogs] in Hd. rewrite Hdogs, Hid, lookup_insert_eq in Hd.
             injection Hd as <-. rewrite Hrow'. reflexivity. }
           rewrite Hid', Hdogs', lookup_insert_eq. cbn. f_equal. f_equal.
           destruct updated as [r u]. cbn in *. unfold include_user.
           rewrite Huser', Husers', Hrow'. reflexivity.
        -- apply prisma_dog_update_Throw in Hupdate as (_ & Hd & Hu).
           intros [= <- <-]. apply Hfound; assumption.
      * intros [= <- <-]. now apply Hfound.
    + intros [= <- <-]. now apply Hfound.
  - intros [= <- <-]. now apply Hfound.
Qed.

End Create_more.

(** ** [update] and [delete] *)

Lemma findFirst_owner id userId w d :
  primary_key (dogs w) -> dogs w !! id = Some d -> Dog.userId d = userId ->
  head (select_rows (Some (DogService.owned_by id userId)) (dogs w)) <> None.
Proof.
  intros Hpk Hd Hu Hnone.
  assert (Hin : In d (select_rows (Some (DogService.owned_by id userId)) (dogs w))).
  { apply select_rows_In. split; [apply In_rows; eauto|].
    cbn [if_present]. rewrite matches_owned_by.
    rewrite (Hpk _ _ Hd), Hu, !String.eqb_refl. reflexivity. }
  destruct (select_rows _ _); [destruct Hin | discriminate].
Qed.

(** X3.  On a table keyed by id, [delete] succeeds exactly for the owner of
    a stored row.  It then returns [true], the row is gone ([findById] finds
    nothing under the id: it answers null, or refuses the id where the
    database takes the text for no UUID), and the calls made are the
    ownership lookup and the deletion. *)
Theorem delete_by_owner (id userId : string) (w : World) :
  primary_key (dogs w) ->
  ((exists result w', DogService.delete id userId w = (Return result, w')) <->
   (exists d, dogs w !! id = Some d /\ Dog.userId d = userId)) /\
  forall result w',
    DogService.delete id userId w = (Return result, w') ->
    result = true /\
    dogs w' = delete id (dogs w) /\ users w' = users w /\
    new_calls w w' = [dog_findFirst (DogService.owned_by id userId); dog_delete id] /\
    fst (DogService.findById id w') =
      if is_uuid id then Return None
      else Throw (PrismaClientKnownRequestError "P2023").
Proof.
  intros Hpk. split; [split|].
  - intros (result & w' & Hdel). revert Hdel. unfold DogService.delete. run.
    destruct (head _) as [found|] eqn:Hfound; [|discriminate].
    apply findFirst_Some in Hfound as (Hin & Hid & Hu).
    apply In_rows in Hin as [k Hk]. pose proof (Hpk _ _ Hk) as Hkey.
    intros _. exists found. split; congruence.
  - intros (d & Hd & Hu). pose proof (findFirst_owner id userId w d Hpk Hd Hu) as Hsome.
    unfold DogService.delete. run.
    destruct (head _) as [found|]; [|congruence]. cbn. rewrite Hd. eauto.
  - intros result w'. unfold DogService.delete. run.
    destruct (head _) as [found|] eqn:Hfound; [|discriminate]. cbn.
    destruct (dogs w !! id) as [d|] eqn:Hd; [|discriminate]. cbn.
    intros [= <- <-]. cbn. split; [reflexivity|]. split; [reflexivity|].
    split; [reflexivity|]. split.
    + unfold new_calls. cbn. rewrite <- app_assoc. apply drop_app_length.
    + unfold DogService.findById. run. rewrite lookup_delete_eq.
      destruct (is_uuid id); reflexivity.
Qed.

(** X4.  [update] and [delete] never touch a row stored under another id,
    nor the users, whether they succeed or throw. *)
Theorem update_delete_local (id userId : string) (input : UpdateDogInput.t)
    (w : World) (k : string) :
  k <> id ->
  dogs (snd (DogService.update id userId input w)) !! k = dogs w !! k /\
  dogs (snd (DogService.delete id userId w)) !! k = dogs w !! k /\
  users (snd (DogService.update id userId input w)) = users w /\
  users (snd (DogService.delete id userId w)) = users w.
Proof.
  intros Hk. unfold DogService.update, DogService.delete. run.
  destruct (head _); [|repeat split]. cbn.
  destruct (dogs w !! id); [|repeat split]. cbn.
  rewrite lookup_delete_ne by congruence.
  destruct (update_fits input); cbn; [|repeat split].
  rewrite lookup_insert_ne by congruence. repeat split.
Qed.

Section Create_frame.
Context {mlService : MLService}.

(** X5.  [create] adds at most one row, under an id that was free, and
    never alters a row that was there, nor the users. *)
Theorem create_adds_one_row (input : CreateDogInput.t) (w : World) :
  let w' := snd (DogService.create input w) in
  users w' = users w /\
  (dogs w' = dogs w \/
   exists id new, dogs w !! id = None /\ dogs w' = <[id := new]> (dogs w)) /\
  forall k d, dogs w !! k = Some d -> dogs w' !! k = Some d.
Proof.
  cbv zeta.
  assert (Hmain : users (snd (DogService.create input w)) = users w /\
    (dogs (snd (DogService.create input w)) = dogs w \/
     exists id new, dogs w !! id = None /\
       dogs (snd (DogService.create input w)) = <[id := new]> (dogs w))).
  { destruct (prisma_dog_create (DogService.create_data input)
                (include_user select_id_name_email) w) as [[created|e] w1] eqn:Hcreate.
    2:{ assert (Hw1 : dogs w1 = dogs w /\ users w1 = users w)
          by apply (prisma_dog_create_Throw _ _ _ _ _ Hcreate).
        unfold DogService.create. steps. rewrite Hcreate. cbn. tauto. }
    rewrite (create_paths input w w1 created Hcreate).
    destruct (prisma_dog_create_Return _ _ _ _ _ Hcreate)
      as (Hfresh & Hrow & Huser & Hdogs & Husers & _ & _).
    assert (Hid : Dog.id (row created) = uuid w (issued w)) by (rewrite Hrow; reflexivity).
    assert (Hadded : forall w2, dogs w2 = dogs w1 -> users w2 = users w1 ->
      users w2 = users w /\ (dogs w2 = dogs w \/
        exists id new, dogs w !! id = None /\ dogs w2 = <[id := new]> (dogs w))).
    { intros w2 Hd Hu. split; [congruence|]. right. rewrite Hd, Hdogs. eauto. }
    destruct (_ && _); [|apply Hadded; reflexivity].
    destruct (predictBreed _ _) as [prediction|e]; [|apply Hadded; reflexivity].
    destruct (JS.truthy _); [|apply Hadded; reflexivity].
    destruct (prisma_dog_update _ _ _ _) as [[updated|e] w3] eqn:Hupdate.
    - apply prisma_dog_update_Return in Hupdate
        as (d & Hd & Hrow' & Huser' & Hdogs' & Husers' & _).
      cbn [snd logged log dogs users] in *. split; [congruence|]. right.
      exists (uuid w (issued w)), (row updated). split; [exact Hfresh|].
      rewrite Hdogs', Hdogs, Hid. apply insert_insert_eq.
    - apply prisma_dog_update_Throw in Hupdate as (_ & Hd & Hu).
      apply Hadded; assumption. }
  destruct Hmain as [Hu Hd]. split; [exact Hu|]. split; [exact Hd|].
  intros k d Hk. destruct Hd as [->|(id & new & Hfresh & ->)]; [exact Hk|].
  rewrite lookup_insert_ne; [exact Hk|congruence].
Qed.

End Create_frame.

(** ** Queries *)

Section Read_only.
Context {math : MathObject}.

Lemma prisma_dog_findMany_tables {A} args (proj : World -> Dog.t -> A) w :
  dogs (snd (prisma_dog_findMany args proj w)) = dogs w /\
  users (snd (prisma_dog_findMany args proj w)) = users w.
Proof. run. destruct (_ <? 0); split; reflexivity. Qed.

(** X6.  The five queries of the service leave both tables as they are. *)
Theorem queries_read_only (w : World) (id userId : string) (page limit : option Z)
    (filters : SearchFilters.t) (bounds : option Bounds.t) :
  let unchanged (w' : World) := dogs w' = dogs w /\ users w' = users w in
  unchanged (snd (DogService.findById id w)) /\
  unchanged (snd (DogService.findAll page limit w)) /\
  unchanged (snd (DogService.search filters w)) /\
  unchanged (snd (DogService.getForMap bounds w)) /\
  unchanged (snd (DogService.findByUser userId w)).
Proof.
  cbv zeta. split.
  { unfold DogService.findById. run.
    destruct (dogs w !! id); [split; reflexivity|].
    destruct (is_uuid id); split; reflexivity. }
  split.
  { unfold DogService.findAll, Promise_all. steps.
    pose proof (prisma_dog_findMany_tables
      {| FindManyArgs.where_ := None; FindManyArgs.orderBy := Some desc;
         FindManyArgs.skip :=
           Some (Binary64.mul (Binary64.sub (default 1 page) 1) (default 50 limit));
         FindManyArgs.take := Some (default 50 limit) |}
      (include_user select_id_name) w) as [Hd Hu].
    destruct (prisma_dog_findMany _ _ w) as [[found|e] w1]; cbn in *; tauto. }
  split.
  { unfold DogService.search. steps.
    pose proof (prisma_dog_findMany_tables
      {| FindManyArgs.where_ := Some (DogService.search_where filters);
         FindManyArgs.orderBy := Some desc;
         FindManyArgs.skip := None; FindManyArgs.take := None |}
      (include_user select_id_name) w) as [Hd Hu].
    destruct (prisma_dog_findMany _ _ w) as [[found|e] w1]; cbn in *; [|tauto].
    destruct (SearchFilters.latitude filters), (SearchFilters.longitude filters),
      (SearchFilters.radiusKm filters) as [r|]; cbn; try tauto.
    destruct (JS.truthy_number r); cbn; tauto. }
  split; apply prisma_dog_findMany_tables.
Qed.

End Read_only.

(** *** Lists *)

Lemma filter_filter {A} (p q : A -> bool) l :
  List.filter p (List.filter q l) = List.filter (fun x => q x && p x) l.
Proof.
  induction l as [|x l IH]; cbn; [reflexivity|].
  destruct (q x); cbn; [destruct (p x)|]; congruence.
Qed.

Lemma filter_all {A} (p : A -> bool) l :
  (forall x, p x = true) -> List.filter p l = l.
Proof. intros Hp. induction l as [|x l IH]; cbn; [|rewrite Hp]; congruence. Qed.

Lemma filter_fmap {A B} (f : A -> B) (p : B -> bool) l :
  List.filter p (f <$> l) = f <$> List.filter (fun x => p (f x)) l.
Proof.
  induction l as [|x l IH]; cbn; [reflexivity|].
  destruct (p (f x)); cbn; congruence.
Qed.

Lemma filter_Permutation_bool {A} (p : A -> bool) l l' :
  l ≡ₚ l' -> List.filter p l ≡ₚ List.filter p l'.
Proof.
  induction 1 as [|x l l' _ IH|x y l|l l' l'' _ IH1 _ IH2]; cbn.
  - reflexivity.
  - destruct (p x); [constructor|]; exact IH.
  - destruct (p x), (p y); try reflexivity. constructor.
  - now rewrite IH1.
Qed.

Lemma StronglySorted_filter {A} (R : relation A) (p : A -> bool) l :
  StronglySorted R l -> StronglySorted R (List.filter p l).
Proof.
  induction 1 as [|x l Hl IH Hx]; cbn; [constructor|].
  destruct (p x); [|exact IH]. constructor; [exact IH|].
  rewrite Forall_forall in *. intros y Hy. apply Hx.
  rewrite list_elem_of_In in *. now apply filter_In in Hy as [Hy _].
Qed.

Lemma fmap_plain w (l : list Dog.t) : plain w <$> l = l.
Proof. exact (list_fmap_id l). Qed.

Lemma row_include_user {U} (select : User.t -> U) w (l : list Dog.t) :
  row <$> (include_user select w <$> l) = l.
Proof. induction l as [|d l IH]; cbn; congruence. Qed.

(** *** [findByUser] *)

(** X7.  [findByUser] returns exactly the stored rows of the user, each
    once, newest first. *)
Theorem findByUser_exactly (userId : string) (w : World) :
  exists result w',
    DogService.findByUser userId w = (Return result, w') /\
    StronglySorted newest_first result /\
    result ≡ₚ List.filter (fun d => String.eqb userId (Dog.userId d)) (rows w) /\
    forall d, In d result <-> In d (rows w) /\ Dog.userId d = userId.
Proof.
  unfold DogService.findByUser.
  rewrite prisma_dog_findMany_eq by (cbn; lia).
  cbn [FindManyArgs.where_ FindManyArgs.orderBy FindManyArgs.skip FindManyArgs.take
       default window from_option].
  change (drop (Z.to_nat 0) ?l) with l. rewrite fmap_plain.
  assert (Hsel : select_rows (Some (DogWhereInput.set_userId userId DogWhereInput.empty))
                   (dogs w)
                 = List.filter (fun d => String.eqb userId (Dog.userId d)) (rows w)).
  { unfold select_rows, rows. apply filter_ext. intros d. cbn.
    now rewrite !andb_true_r. }
  rewrite Hsel. eexists _, _. split; [reflexivity|].
  split; [apply order_rows_desc_sorted|].
  split; [apply order_rows_Permutation|].
  intros d. rewrite order_rows_In, filter_In, String.eqb_eq. intuition congruence.
Qed.

(** *** [search] *)

Section Search_more.
Context {math : MathObject}.

Lemma matches_search_where filters d :
  matches (DogService.search_where filters) d = text_filters_accept filters d.
Proof.
  unfold DogService.search_where, text_filters_accept, contains.
  destruct (JS.truthy (SearchFilters.query filters)),
    (JS.truthy (SearchFilters.status filters)),
    (JS.truthy (SearchFilters.size filters)),
    (JS.truthy (SearchFilters.breed filters)); cbn;
    rewrite ?andb_true_r, ?orb_false_r, ?orb_assoc; reflexivity.
Qed.

(** X8.  [search] returns exactly the stored rows that pass every text
    filter that is given and, when a point and a truthy radius are given,
    lie within the radius; each such row once, newest first, with the id and
    name of its owner.  The query and the breed are compared after the case
    folding of the database, whatever it is. *)
Theorem search_exactly (filters : SearchFilters.t) (w : World) :
  exists result w',
    DogService.search filters w = (Return result, w') /\
    StronglySorted newest_first (row <$> result) /\
    row <$> result ≡ₚ
      List.filter (fun d => text_filters_accept filters d && radius_accepts filters d)
        (rows w) /\
    forall x, In x result -> x = include_user select_id_name w (row x).
Proof.
  rewrite search_eq. eexists _, _. split; [reflexivity|].
  set (found := order_rows (next_query w) (Some desc) _).
  assert (Hfound : found ≡ₚ List.filter (text_filters_accept filters) (rows w)).
  { unfold found. rewrite order_rows_Permutation.
    unfold select_rows, rows. erewrite filter_ext; [reflexivity|].
    intros d. apply matches_search_where. }
  assert (Hsorted : StronglySorted newest_first found) by apply order_rows_desc_sorted.
  assert (Hresult :
    match SearchFilters.latitude filters, SearchFilters.longitude filters,
          SearchFilters.radiusKm filters with
    | Some latitude, Some longitude, Some radiusKm =>
        if JS.truthy_number radiusKm
        then List.filter (DogService.within latitude longitude radiusKm)
               (include_user select_id_name w <$> found)
        else include_user select_id_name w <$> found
    | _, _, _ => include_user select_id_name w <$> found
    end = include_user select_id_name w <$> List.filter (radius_accepts filters) found).
  { unfold radius_accepts.
    destruct (SearchFilters.latitude filters) as [lat|],
      (SearchFilters.longitude filters) as [lon|],
      (SearchFilters.radiusKm filters) as [r|];
      try (rewrite filter_all by reflexivity; reflexivity).
    destruct (JS.truthy_number r).
    - apply filter_fmap.
    - rewrite filter_all by reflexivity. reflexivity. }
  rewrite Hresult, row_include_user.
  split; [now apply StronglySorted_filter|]. split.
  - rewrite (filter_Permutation_bool _ _ _ Hfound). now rewrite filter_filter.
  - intros x Hx. rewrite <- list_elem_of_In, list_elem_of_fmap in Hx.
    now destruct Hx as (d & -> & _).
Qed.

End Search_more.

(** ** NaN coordinates *)

Lemma is_nan_eq x : is_nan x = true -> x = nan.
Proof.
  unfold is_nan. rewrite FloatAxioms.eqb_spec. intros Hx.
  apply Prim2SF_inj. change (Prim2SF nan) with S754_nan.
  destruct (Prim2SF x) as [s|[|]| |s m e]; try discriminate; [reflexivity|].
  unfold SFeqb in Hx. rewrite SFcompare_refl_finite in Hx. discriminate.
Qed.

Lemma sub_nan_l x : (nan - x)%float = nan.
Proof.
  apply Prim2SF_inj. rewrite FloatAxioms.sub_spec.
  change (Prim2SF nan) with S754_nan. reflexivity.
Qed.

Lemma sub_nan_r x : (x - nan)%float = nan.
Proof.
  apply Prim2SF_inj. rewrite FloatAxioms.sub_spec.
  change (Prim2SF nan) with S754_nan. unfold SF64sub, SFsub.
  now destruct (Prim2SF x).
Qed.

Lemma add_nan_r x : (x + nan)%float = nan.
Proof.
  apply Prim2SF_inj. rewrite FloatAxioms.add_spec.
  change (Prim2SF nan) with S754_nan. unfold SF64add, SFadd.
  now destruct (Prim2SF x).
Qed.

Lemma mul_nan_r x : (x * nan)%float = nan.
Proof.
  apply Prim2SF_inj. rewrite FloatAxioms.mul_spec.
  change (Prim2SF nan) with S754_nan. unfold SF64mul, SFmul.
  now destruct (Prim2SF x).
Qed.

Lemma leb_nan_l x : (nan <=? x)%float = false.
Proof.
  rewrite FloatAxioms.leb_spec. change (Prim2SF nan) with S754_nan. reflexivity.
Qed.

Section NaN_facts.
Context {math : MathObject}.

Lemma distance_tail_nan : (6371 * (2 * Math_atan2 (Math_sqrt nan) (Math_sqrt (1 - nan))))%float = nan.
Proof. change (Math_sqrt nan) with nan. rewrite atan2_nan. reflexivity. Qed.

Lemma distance_dLat_nan lat1 lon1 lat2 lon2 :
  (lat2 - lat1)%float = nan -> calculateDistance lat1 lon1 lat2 lon2 = nan.
Proof.
  intros Hd. unfold calculateDistance. rewrite Hd.
  change (toRad nan) with nan. change (nan / 2)%float with nan.
  rewrite sin_nan. change (nan * nan)%float with nan.
  rewrite add_nan_l. apply distance_tail_nan.
Qed.

Lemma distance_dLon_nan lat1 lon1 lat2 lon2 :
  (lon2 - lon1)%float = nan -> calculateDistance lat1 lon1 lat2 lon2 = nan.
Proof.
  intros Hd. unfold calculateDistance. rewrite Hd.
  change (toRad nan) with nan. change (nan / 2)%float with nan.
  rewrite sin_nan, mul_nan_r. change (nan * nan)%float with nan.
  rewrite add_nan_r. apply distance_tail_nan.
Qed.

Lemma distance_nan_argument (lat1 lon1 lat2 lon2 : float) :
  is_nan lat1 || is_nan lon1 || is_nan lat2 || is_nan lon2 = true ->
  calculateDistance lat1 lon1 lat2 lon2 = nan.
Proof.
  intros H. repeat (apply orb_prop in H as [H|H]); apply is_nan_eq in H; subst.
  - apply distance_dLat_nan, sub_nan_r.
  - apply distance_dLon_nan, sub_nan_r.
  - apply distance_dLat_nan, sub_nan_l.
  - apply distance_dLon_nan, sub_nan_l.
Qed.

(** X9.  A NaN among the four coordinates makes the distance NaN, which is
    within no radius. *)
Theorem calculateDistance_any_NaN (lat1 lon1 lat2 lon2 radiusKm : float) :
  is_nan lat1 || is_nan lon1 || is_nan lat2 || is_nan lon2 = true ->
  calculateDistance lat1 lon1 lat2 lon2 = nan /\
  (calculateDistance lat1 lon1 lat2 lon2 <=? radiusKm)%float = false.
Proof.
  intros H. rewrite (distance_nan_argument _ _ _ _ H).
  split; [reflexivity|apply leb_nan_l].
Qed.

(** X10.  Under a radius filter that is on, [search] returns no record with
    a NaN coordinate, and returns nothing at all when the given point has a
    NaN coordinate (as after [parseFloat] of a text that is no number). *)
Theorem search_NaN (filters : SearchFilters.t) (w : World)
    (latitude longitude radiusKm : float) :
  SearchFilters.latitude filters = Some latitude ->
  SearchFilters.longitude filters = Some longitude ->
  SearchFilters.radiusKm filters = Some radiusKm ->
  JS.truthy_number radiusKm = true ->
  exists result w',
    DogService.search filters w = (Return result, w') /\
    (forall d, In d result ->
       is_nan (Dog.latitude (row d)) = false /\ is_nan (Dog.longitude (row d)) = false) /\
    (is_nan latitude || is_nan longitude = true -> result = []).
Proof.
  intros Hlat Hlon Hr Htruthy. rewrite search_eq, Hlat, Hlon, Hr, Htruthy.
  eexists _, _. split; [reflexivity|].
  assert (Hout : forall d : DogWith UserIdName.t,
            is_nan latitude || is_nan longitude
            || is_nan (Dog.latitude (row d)) || is_nan (Dog.longitude (row d)) = true ->
            DogService.within latitude longitude radiusKm d = false).
  { intros d Hd. unfold DogService.within.
    rewrite (distance_nan_argument _ _ _ _ Hd). apply leb_nan_l. }
  split.
  - intros d [_ Hd]%filter_In.
    destruct (is_nan (Dog.latitude (row d))) eqn:Hla.
    { rewrite Hout in Hd; [discriminate|]. rewrite Hla. now rewrite orb_true_r. }
    destruct (is_nan (Dog.longitude (row d))) eqn:Hlo; [|auto].
    rewrite Hout in Hd; [discriminate|]. rewrite Hlo. apply orb_true_r.
  - intros Hnan. set (l := _ <$> _). clearbody l.
    induction l as [|d l IH]; [reflexivity|].
    cbn [List.filter]. rewrite Hout; [exact IH|]. now rewrite Hnan.
Qed.

End NaN_facts.

(** ** The prediction over HTTP *)

(** X11.  [MLService.predictBreed] never rejects.  A breed comes back only
    from an OK response whose [result] is a non-empty text, and is that
    text; every other exchange yields a prediction with a non-empty error
    message and no breed. *)
Theorem MLService_predictBreed_breed (fetch : string -> string -> Fetch.outcome)
    (imageUrl dogId : string) :
  exists prediction,
    MLService_predictBreed fetch imageUrl dogId = Return prediction /\
    (forall b, PredictionResult.breed prediction = Some b <->
       b <> "" /\
       exists data, fetch dogId imageUrl = Fetch.response true (Some data) /\
                    Fetch.result data = Some b) /\
    ((forall data, fetch dogId imageUrl <> Fetch.response true (Some data)) ->
       PredictionResult.breed prediction = None /\
       exists message, PredictionResult.error prediction = Some message /\ message <> "").
Proof.
  unfold MLService_predictBreed.
  destruct (fetch dogId imageUrl) as [|[|] [data|]] eqn:Hfetch;
    (eexists; split; [reflexivity|]); cbn [PredictionResult.breed PredictionResult.error].
  - split.
    + intros b. split; [discriminate|]. intros (_ & data & [=] & _).
    + intros _. split; [reflexivity|]. eexists. split; [reflexivity|discriminate].
  - split.
    + intros b. destruct (Fetch.result data) as [r|] eqn:Hr; cbn [JS.truthy].
      * destruct (String.eqb_spec r "") as [->|Hne]; cbn [negb].
        -- split; [discriminate|]. intros (Hb & data' & [= <-] & Hr').
           rewrite Hr in Hr'. congruence.
        -- split.
           ++ intros [= <-]. split; [exact Hne|]. now exists data.
           ++ intros (_ & data' & [= <-] & Hr'). congruence.
      * split; [discriminate|]. intros (_ & data' & [= <-] & Hr'). congruence.
    + intros Hnot. now destruct (Hnot data).
  - split.
    + intros b. split; [discriminate|]. intros (_ & data & [=] & _).
    + intros _. split; [reflexivity|]. eexists. split; [reflexivity|discriminate].
  - split.
    + intros b. split; [discriminate|]. intros (_ & data' & [=] & _).
    + intros _. split; [reflexivity|]. eexists. split; [reflexivity|].
      unfold JS.or_else. destruct (Fetch.error data) as [m|]; [|discriminate].
      destruct (String.eqb_spec m ""); [discriminate|assumption].
  - split.
    + intros b. split; [discriminate|]. intros (_ & data & [=] & _).
    + intros _. split; [reflexivity|]. eexists. split; [reflexivity|discriminate].
Qed.

(** The breed [create] leaves on the record, once the row exists. *)
Lemma create_breed {mlService : MLService} (input : CreateDogInput.t) (w w1 : World)
    (created : DogWith UserIdNameEmail.t) :
  prisma_dog_create (DogService.create_data input) with_owner w = (Return created, w1) ->
  exists dog w',
    DogService.create input w = (Return dog, w') /\
    same_sighting (row dog) (row created) /\
    Dog.breed (row dog) =
      if JS.truthy (CreateDogInput.imageUrl input)
         && negb (JS.truthy (CreateDogInput.breed input))
      then
        match predictBreed (JS.string_of (CreateDogInput.imageUrl input))
                (Dog.id (row created)) with
        | Return prediction =>
            if JS.truthy (PredictionResult.breed prediction)
               && VARCHAR 100 (PredictionResult.breed prediction)
            then PredictionResult.breed prediction
            else CreateDogInput.breed input
        | Throw _ => CreateDogInput.breed input
        end
      else CreateDogInput.breed input.
Proof.
  intros Hcreate. rewrite (create_paths input w w1 created Hcreate).
  destruct (prisma_dog_create_Return _ _ _ _ _ Hcreate)
    as (Hfresh & Hrow & Huser & Hdogs & Husers & _ & _).
  assert (Hid : Dog.id (row created) = uuid w (issued w)) by (rewrite Hrow; reflexivity).
  assert (Hbreed : Dog.breed (row created) = CreateDogInput.breed input)
    by (rewrite Hrow; reflexivity).
  assert (Hsame : same_sighting (row created) (row created)) by (repeat split).
  destruct (_ && _); [|eauto 6].
  destruct (predictBreed _ _) as [prediction|e]; [|eauto 6].
  destruct (JS.truthy _) eqn:Htruthy; [|eauto 6]. cbn [andb].
  destruct (PredictionResult.breed prediction) as [b|] eqn:Hb; [|discriminate].
  cbn [JS.string_of from_option id].
  destruct (prisma_dog_update _ _ _ _) as [[updated|e] w3] eqn:Hupdate.
  - pose proof (prisma_dog_update_Return_fits _ _ _ _ _ _ Hupdate) as Hfits.
    rewrite update_fits_only_breed in Hfits. rewrite Hfits.
    apply prisma_dog_update_Return in Hupdate as (d & Hd & Hrow' & _).
    cbn [logged log snd dogs] in Hd.
    rewrite Hdogs, Hid, lookup_insert_eq in Hd. injection Hd as <-.
    exists updated, w3. split; [reflexivity|]. rewrite Hrow'. split; [repeat split|].
    reflexivity.
  - apply prisma_dog_update_Throw in Hupdate as (Hnone & _).
    cbn [logged log snd dogs] in Hnone.
    rewrite Hdogs, Hid, lookup_insert_eq, update_fits_only_breed in Hnone.
    destruct (VARCHAR 100 (Some b)); [now specialize (Hnone eq_refl)|].
    eauto 6.
Qed.

(** X12.  [create] over the HTTP collaborator, once the row exists: the
    exchange never makes [create] throw, and the record that comes back is
    the created one, with the [result] of the response as its breed exactly
    when the input has an image and no breed, the response is OK and its
    [result] is a non-empty text that fits the column (at most 100
    characters); a longer one is refused by the storage and the record
    keeps the breed of the input. *)
Theorem create_over_http (fetch : string -> string -> Fetch.outcome)
    (input : CreateDogInput.t) (w w1 : World) (created : DogWith UserIdNameEmail.t) :
  prisma_dog_create (DogService.create_data input) with_owner w = (Return created, w1) ->
  exists dog w',
    DogService.create (mlService := http_MLService fetch) input w = (Return dog, w') /\
    same_sighting (row dog) (row created) /\
    Dog.breed (row dog) =
      if JS.truthy (CreateDogInput.imageUrl input)
         && negb (JS.truthy (CreateDogInput.breed input))
      then
        match fetch (Dog.id (row created))
                (JS.string_of (CreateDogInput.imageUrl input)) with
        | Fetch.response true (Some data) =>
            if JS.truthy (Fetch.result data) && VARCHAR 100 (Fetch.result data)
            then Fetch.result data
            else CreateDogInput.breed input
        | _ => CreateDogInput.breed input
        end
      else CreateDogInput.breed input.
Proof.
  intros Hcreate.
  destruct (create_breed (mlService := http_MLService fetch) input w w1 created Hcreate)
    as (dog & w' & Hrun & Hsame & Hbreed).
  exists dog, w'. split; [exact Hrun|]. split; [exact Hsame|]. rewrite Hbreed.
  destruct (_ && _); [|reflexivity].
  cbn [predictBreed http_MLService]. unfold MLService_predictBreed.
  destruct (fetch _ _) as [|[|] [data|]]; try reflexivity.
  cbn [PredictionResult.breed].
  destruct (JS.truthy (Fetch.result data)) eqn:Hr; rewrite ?Hr; reflexivity.
Qed.

(** ** Pages of [findAll] *)

Lemma findAll_eq (page limit : option Z) (w : World) :
  let p := default 1 page in
  let l := default 50 limit in
  let skip := Binary64.mul (Binary64.sub p 1) l in
  0 <= skip ->
  exists w',
    DogService.findAll page limit w =
      (Return {| DogPage.dogs := window skip (Some l) (newest w);
                 DogPage.pagination :=
                   {| Pagination.page := p;
                      Pagination.limit := l;
                      Pagination.total := Z.of_nat (length (rows w));
                      Pagination.totalPages :=
                        Num.Math_ceil (Num.div (Z.of_nat (length (rows w))) l) |} |},
       w') /\
    dogs w' = dogs w /\ users w' = users w.
Proof.
  intros p l skip Hskip. unfold DogService.findAll. fold p l skip. steps.
  unfold Promise_all.
  rewrite prisma_dog_findMany_eq by (cbn; lia). cbn [fst snd].
  rewrite prisma_dog_count_eq.
  cbn [FindManyArgs.where_ FindManyArgs.orderBy FindManyArgs.skip FindManyArgs.take
       default from_option logged log snd dogs].
  rewrite select_rows_all, <- rows_size. fold (rows w).
  eexists. split.
  - f_equal. f_equal. f_equal.
    unfold newest, window. destruct (0 <=? l).
    + now rewrite fmap_take, fmap_drop.
    + now rewrite fmap_reverse, fmap_take, fmap_drop, fmap_reverse.
  - split; reflexivity.
Qed.

Lemma findAll_calls (page limit : option Z) (w : World) :
  let p := default 1 page in
  let l := default 50 limit in
  let skip := Binary64.mul (Binary64.sub p 1) l in
  0 <= skip ->
  new_calls w (snd (DogService.findAll page limit w)) =
    [ dog_findMany {| FindManyArgs.where_ := None;
                      FindManyArgs.orderBy := Some desc;
                      FindManyArgs.skip := Some skip;
                      FindManyArgs.take := Some l |};
      dog_count ].
Proof.
  intros p l skip Hskip. unfold DogService.findAll. fold p l skip. steps.
  unfold Promise_all.
  rewrite prisma_dog_findMany_eq by (cbn; lia). cbn [fst snd].
  rewrite prisma_dog_count_eq. cbn [snd logged log].
  unfold new_calls. cbn [calls]. rewrite <- app_assoc. apply drop_app_length.
Qed.



(** Without ties the order is the same for every query. *)
Lemma order_rows_no_ties (w : World) (q1 q2 : nat) :
  no_ties w ->
  order_rows q1 (Some desc) (rows w) = order_rows q2 (Some desc) (rows w).
Proof.
  intros Hties.
  apply (StronglySorted_unique_strong newest_first).
  - intros a b Ha Hb Hab Hba.
    apply list_elem_of_In, order_rows_In in Ha, Hb.
    apply Hties; [assumption..|]. unfold newest_first in *. lia.
  - apply order_rows_desc_sorted.
  - apply order_rows_desc_sorted.
  - now rewrite !order_rows_Permutation.
Qed.

Lemma fetch_pages_eq (limit : Z) (n : nat) (from : Z) (w : World) :
  1 <= limit -> 1 <= from -> (from - 1 + Z.of_nat n) * limit <= 2 ^ 53 ->
  no_ties w ->
  exists pages w',
    fetch_pages limit from n w = (Return pages, w') /\
    dogs w' = dogs w /\ users w' = users w /\
    row <$> pages =
      take (n * Z.to_nat limit)
        (drop (Z.to_nat ((from - 1) * limit)) (order_rows 0 (Some desc) (rows w))).
Proof.
  intros Hl. revert from w.
  induction n as [|n IH]; intros from w Hfrom Hbound Hties.
  { exists [], w. repeat split. }
  cbn [fetch_pages]. steps.
  assert (Hskip : Binary64.mul (Binary64.sub from 1) limit = (from - 1) * limit)
    by (apply findAll_skip_exact; nia).
  destruct (findAll_eq (Some from) (Some limit) w) as (w1 & -> & Hdogs & Husers).
  { cbn [from_option id]. rewrite Hskip. nia. }
  cbn [from_option id DogPage.dogs]. rewrite Hskip.
  assert (Hrows : rows w1 = rows w) by (unfold rows; now rewrite Hdogs).
  assert (Hties1 : no_ties w1) by (unfold no_ties; now rewrite Hrows).
  destruct (IH (from + 1) w1 ltac:(lia) ltac:(nia) Hties1)
    as (rest & w2 & -> & Hdogs2 & Husers2 & Hrest).
  exists (window ((from - 1) * limit) (Some limit) (newest w) ++ rest), w2.
  split; [reflexivity|]. split; [congruence|]. split; [congruence|].
  rewrite fmap_app, Hrest, Hrows. unfold window, newest.
  rewrite (proj2 (Z.leb_le 0 limit)) by lia.
  rewrite fmap_take, fmap_drop, row_include_user.
  rewrite (order_rows_no_ties w (next_query w) 0 Hties).
  set (sorted := order_rows 0 (Some desc) (rows w)).
  replace (Z.to_nat ((from + 1 - 1) * limit))
    with (Z.to_nat ((from - 1) * limit) + Z.to_nat limit)%nat by nia.
  rewrite <- drop_drop, take_take_drop. f_equal.
Qed.

(** X14.  The pages tile the table when no two rows were created at the
    same time: for a page size of at least one and [n * limit] at most 2^53,
    the records of pages [1 .. n], fetched one after the other, are the
    first [n * limit] rows in descending order of creation; if that covers
    the table they are all the rows, each one once.  (With ties the storage
    may order them differently from one page to the next.) *)
Theorem findAll_pages_tile (limit : Z) (n : nat) (w : World) :
  1 <= limit -> Z.of_nat n * limit <= 2 ^ 53 -> no_ties w ->
  exists pages w',
    fetch_pages limit 1 n w = (Return pages, w') /\
    dogs w' = dogs w /\
    (forall query,
       row <$> pages =
       take (n * Z.to_nat limit) (order_rows query (Some desc) (rows w))) /\
    (Z.of_nat (length (rows w)) <= Z.of_nat n * limit -> row <$> pages ≡ₚ rows w).
Proof.
  intros Hl Hbound Hties.
  destruct (fetch_pages_eq limit n 1 w Hl ltac:(lia) ltac:(nia) Hties)
    as (pages & w' & Hrun & Hdogs & _ & Hpages).
  change (Z.to_nat ((1 - 1) * limit)) with 0%nat in Hpages.
  rewrite drop_0 in Hpages.
  pose proof (Permutation_length (order_rows_Permutation 0 (Some desc) (rows w))) as Hlen.
  exists pages, w'. split; [exact Hrun|]. split; [exact Hdogs|]. split.
  - intros query. now rewrite (order_rows_no_ties w query 0 Hties).
  - intros Hall. rewrite Hpages, take_ge by nia.
    apply order_rows_Permutation.
Qed.

(** X15.  A page size of zero: [findAll] returns an empty page, and
    [totalPages] is no number at all, [Infinity] on a table with rows and
    [NaN] on an empty one. *)
Theorem findAll_limit_zero (page : Z) (w : World) :
  exists result w',
    DogService.findAll (Some page) (Some 0) w = (Return result, w') /\
    DogPage.dogs result = [] /\
    Pagination.total (DogPage.pagination result) = Z.of_nat (length (rows w)) /\
    Pagination.totalPages (DogPage.pagination result) =
      if decide (rows w = []) then Num.NaN else Num.Infinity false.
Proof.
  assert (Hskip : Binary64.mul (Binary64.sub page 1) 0 = 0).
  { unfold Binary64.mul. now rewrite Z.mul_0_r. }
  destruct (findAll_eq (Some page) (Some 0) w) as (w' & Hrun & _).
  { cbn [from_option id]. rewrite Hskip. lia. }
  cbn [from_option id] in Hrun. rewrite Hskip in Hrun.
  eexists _, w'. split; [exact Hrun|].
  cbn [DogPage.dogs DogPage.pagination Pagination.total Pagination.totalPages].
  split; [reflexivity|]. split; [reflexivity|].
  destruct (rows w); reflexivity.
Qed.

(** ** The HTTP layer *)


Section Routes_facts.
Context {math : MathObject} {mlService : MLService}.
Variable jwt_verify : option string -> string -> Result JwtPayload.t.
Variable JWT_SECRET : option string.
Variable parseFloat : string -> float.
Variable parseInt : string -> option Z.
Variable prisma_message : Exception -> string.

Abbreviation authMiddleware A := (@Routes.authMiddleware _ jwt_verify JWT_SECRET A).

Abbreviation authenticated := (authenticated_as jwt_verify JWT_SECRET).
Abbreviation get_my := (Routes.get_my jwt_verify JWT_SECRET).
Abbreviation delete_by_id := (Routes.delete_by_id jwt_verify JWT_SECRET prisma_message).
Abbreviation get_map := (Routes.get_map parseFloat).
Abbreviation get_search := (Routes.get_search parseFloat).
Abbreviation get_list := (Routes.get_list jwt_verify JWT_SECRET parseInt).

Abbreviation breaks := (authentication_breaks jwt_verify JWT_SECRET).

Lemma authMiddleware_eq {A} (authorization : option string) (w : World) :
  exists guard,
    authMiddleware A authorization w = (Return guard, w) /\
    match guard with
    | next userId => authenticated authorization w = Some userId
    | responded r =>
        authenticated authorization w = None /\
        (exists code message, Response.body r = error_json code message) /\
        (Response.status r = 401 /\ ~ breaks authorization w \/
         is_error 500 "AUTH_ERROR" "Erro na autenticação" r /\ breaks authorization w)
    end.
Proof.
  unfold Routes.authMiddleware, authenticated_as, authentication_breaks, res_status_json,
    prisma_user_findUnique.
  steps.
  destruct authorization as [authHeader|];
    cbn [JS.truthy JS.string_of from_option id mbind option_bind negb orb].
  2:{ eexists. split; [reflexivity|]. cbn. split; [reflexivity|]. split; [eauto|].
      left. split; [reflexivity|]. intros (? & [=] & _). }
  destruct (String.prefix "Bearer " authHeader) eqn:Hprefix.
  2:{ rewrite orb_true_r. eexists. split; [reflexivity|]. cbn.
      split; [reflexivity|]. split; [eauto|].
      left. split; [reflexivity|]. intros (? & [= <-] & Hp & _). congruence. }
  assert (Htruthy : negb (String.eqb authHeader "") = true).
  { destruct (String.eqb_spec authHeader "") as [->|]; [discriminate|reflexivity]. }
  rewrite Htruthy. cbn [negb orb].
  destruct (jwt_verify _ _) as [decoded|e] eqn:Hverify.
  - destruct (users w !! JwtPayload.userId decoded) as [user|] eqn:Huser;
      cbn [mbind option_bind].
    + eexists. split; [reflexivity|]. reflexivity.
    + destruct (is_uuid _) eqn:Huuid.
      * eexists. split; [reflexivity|]. cbn. split; [reflexivity|]. split; [eauto|].
        left. split; [reflexivity|].
        intros (? & [= <-] & _ & Hbreak). rewrite Hverify in Hbreak.
        destruct Hbreak as [_ Hbreak]. congruence.
      * eexists. split; [reflexivity|]. cbn. split; [reflexivity|]. split; [eauto|].
        right. split; [split; reflexivity|].
        exists authHeader. rewrite Hverify. auto.
  - destruct e as [m| | |m];
      (eexists; split; [reflexivity|]; cbn; split; [reflexivity|]; split; [eauto|]).
    1-3: right; (split; [split; reflexivity|]); exists authHeader; rewrite Hverify; auto.
    left. split; [reflexivity|].
    intros (? & [= <-] & _ & Hbreak). now rewrite Hverify in Hbreak.
Qed.

(** X16.  [authMiddleware] changes nothing and throws nothing.  It calls
    [next()] exactly for a header [Bearer <token>] whose token verifies to
    the id of a stored user, and sets [req.userId] to that user's id.  Every
    other request is answered with an error body: with status 500 and code
    AUTH_ERROR exactly when the verification throws something that is no
    [JsonWebTokenError] or the user lookup throws (the id in the token is
    no UUID), and with status 401 otherwise. *)
Theorem authMiddleware_outcome {A} (authorization : option string) (w : World) :
  exists guard,
    authMiddleware A authorization w = (Return guard, w) /\
    (forall userId,
       guard = next userId <->
       exists authHeader decoded user,
         authorization = Some authHeader /\
         String.prefix "Bearer " authHeader = true /\
         jwt_verify (split " " authHeader !! 1%nat)
           (JS.or_else JWT_SECRET "default_secret") = Return decoded /\
         users w !! JwtPayload.userId decoded = Some user /\
         User.id user = userId) /\
    (forall r, guard = responded r ->
       (exists code message, Response.body r = error_json code message) /\
       (Response.status r = 401 \/ is_error 500 "AUTH_ERROR" "Erro na autenticação" r) /\
       (Response.status r = 500 <->
        exists authHeader,
          authorization = Some authHeader /\
          String.prefix "Bearer " authHeader = true /\
          match jwt_verify (split " " authHeader !! 1%nat)
                  (JS.or_else JWT_SECRET "default_secret") with
          | Return decoded =>
              users w !! JwtPayload.userId decoded = None /\
              is_uuid (JwtPayload.userId decoded) = false
          | Throw (JsonWebTokenError _) => False
          | Throw _ => True
          end)).
Proof.
  destruct (authMiddleware_eq (A := A) authorization w) as (guard & Hrun & Hguard).
  exists guard. split; [exact Hrun|].
  assert (Hauth : forall userId,
    authenticated authorization w = Some userId <->
    exists authHeader decoded user,
      authorization = Some authHeader /\
      String.prefix "Bearer " authHeader = true /\
      jwt_verify (split " " authHeader !! 1%nat)
        (JS.or_else JWT_SECRET "default_secret") = Return decoded /\
      users w !! JwtPayload.userId decoded = Some user /\
      User.id user = userId).
  { intros userId. unfold authenticated_as. split.
    - destruct authorization as [authHeader|]; [|discriminate]. cbn [mbind option_bind].
      destruct (String.prefix _ _) eqn:Hprefix; [|discriminate].
      destruct (jwt_verify _ _) as [decoded|e] eqn:Hverify; [|discriminate].
      destruct (users w !! _) as [user|] eqn:Huser; [|discriminate].
      cbn [mbind option_bind]. intros [= <-].
      exists authHeader, decoded, user. repeat split; assumption.
    - intros (authHeader & decoded & user & -> & Hp & Hv & Hu & <-).
      cbn [mbind option_bind]. rewrite Hp, Hv, Hu. reflexivity. }
  split.
  - intros userId. rewrite <- Hauth. destruct guard as [r|u].
    + destruct Hguard as (Hnone & _). rewrite Hnone. split; discriminate.
    + rewrite Hguard. split; congruence.
  - intros r ->. destruct Hguard as (_ & Hbody & Hstatus).
    split; [exact Hbody|].
    change (exists authHeader : string, _) with (breaks authorization w).
    destruct Hstatus as [[H401 Hnot]|[H500 Hbreak]].
    + split; [now left|]. split; [rewrite H401; discriminate|contradiction].
    + split; [now right|]. split; [auto|]. intros _. apply H500.
Qed.

Lemma guarded_eq {A} (authorization : option string)
    (handler : string -> M (Response.t A)) (w : World) :
  match authenticated authorization w with
  | Some userId =>
      Routes.guarded jwt_verify JWT_SECRET authorization handler w = handler userId w
  | None =>
      exists r, Routes.guarded jwt_verify JWT_SECRET authorization handler w = (Return r, w) /\
                (Response.status r = 401 \/ Response.status r = 500) /\
                exists code message, Response.body r = error_json code message
  end.
Proof.
  unfold Routes.guarded. steps.
  destruct (authMiddleware_eq (A := A) authorization w) as (guard & -> & Hguard).
  destruct guard as [r|u].
  - destruct Hguard as (-> & Hbody & Hstatus). exists r. split; [reflexivity|].
    split; [|exact Hbody].
    destruct Hstatus as [[H401 _]|[[H500 _] _]]; auto.
  - rewrite Hguard. reflexivity.
Qed.

(** X17.  A request that [authMiddleware] does not let through never
    reaches the service: the routes behind it answer with an error body and
    status 401, or 500 where the authentication itself breaks, and make no
    call to the dog storage or to the prediction service; the state, with
    its record of those calls, is as it was. *)
Theorem guarded_routes_unauthenticated (authorization : option string) (id : string)
    (w : World) :
  authenticated authorization w = None ->
  (exists r, get_my authorization w = (Return r, w) /\
             (Response.status r = 401 \/ Response.status r = 500) /\
             exists code message, Response.body r = error_json code message) /\
  (exists r, delete_by_id authorization id w = (Return r, w) /\
             (Response.status r = 401 \/ Response.status r = 500) /\
             exists code message, Response.body r = error_json code message).
Proof.
  intros Hnone. split.
  - unfold Routes.get_my.
    match goal with
    | |- context [Routes.guarded _ _ _ ?handler _] =>
        pose proof (guarded_eq authorization handler w) as H
    end.
    rewrite Hnone in H. exact H.
  - unfold Routes.delete_by_id.
    match goal with
    | |- context [Routes.guarded _ _ _ ?handler _] =>
        pose proof (guarded_eq authorization handler w) as H
    end.
    rewrite Hnone in H. exact H.
Qed.


Lemma select_rows_empty (t : gmap string Dog.t) :
  select_rows (Some DogWhereInput.empty) t = (map_to_list t).*2.
Proof.
  unfold select_rows. cbn [if_present].
  induction ((map_to_list t).*2) as [|d l IH]; [reflexivity|].
  cbn [List.filter]. change (matches DogWhereInput.empty d) with true.
  congruence.
Qed.

(** X19.  GET /api/dogs/my for an authenticated user: status 200 with
    exactly the stored rows of that user, each once, newest first; the
    tables are left as they were. *)
Theorem get_my_authenticated (authorization : option string) (userId : string)
    (w : World) :
  authenticated authorization w = Some userId ->
  exists result w',
    get_my authorization w =
      (Return {| Response.status := 200; Response.body := json result |}, w') /\
    dogs w' = dogs w /\ users w' = users w /\
    StronglySorted newest_first result /\
    result ≡ₚ List.filter (fun d => String.eqb userId (Dog.userId d)) (rows w) /\
    forall d, In d result <-> In d (rows w) /\ Dog.userId d = userId.
Proof.
  intros Hauth. unfold Routes.get_my.
  match goal with
  | |- context [Routes.guarded _ _ _ ?handler _] =>
      pose proof (guarded_eq authorization handler w) as Hguard
  end.
  rewrite Hauth in Hguard. rewrite Hguard. clear Hguard.
  unfold res_json, res_status_json, DogService.findByUser. steps.
  rewrite prisma_dog_findMany_eq by (cbn; lia).
  cbn [FindManyArgs.where_ FindManyArgs.orderBy FindManyArgs.skip FindManyArgs.take
       default window from_option].
  change (drop (Z.to_nat 0) ?l) with l. rewrite fmap_plain.
  assert (Hsel : select_rows (Some (DogWhereInput.set_userId userId DogWhereInput.empty))
                   (dogs w)
                 = List.filter (fun d => String.eqb userId (Dog.userId d)) (rows w)).
  { unfold select_rows, rows. apply filter_ext. intros d. cbn.
    now rewrite !andb_true_r. }
  rewrite Hsel. eexists _, _. split; [reflexivity|].
  split; [reflexivity|]. split; [reflexivity|].
  split; [apply order_rows_desc_sorted|].
  split; [apply order_rows_Permutation|].
  intros d. rewrite order_rows_In, filter_In, String.eqb_eq.
  split; (intros [Hin Hu]; split; [exact Hin|now symmetry]).
Qed.

(** X20.  GET /api/dogs/:id answers a stored id with status 200 and the row
    with its owner's id, name and email.  An id under which nothing is
    stored gets status 404 and code NOT_FOUND when it is a UUID, and status
    500 and code FETCH_ERROR when it is none, the lookup throwing then.  The
    route reads only. *)
Theorem get_by_id_found_or_404 (id : string) (w : World) :
  exists r w',
    Routes.get_by_id id w = (Return r, w') /\
    dogs w' = dogs w /\ users w' = users w /\
    (forall d, dogs w !! id = Some d ->
       r = {| Response.status := 200; Response.body := json (with_owner w d) |}) /\
    (dogs w !! id = None -> is_uuid id = true ->
       is_error 404 "NOT_FOUND" "Cachorro não encontrado" r) /\
    (dogs w !! id = None -> is_uuid id = false ->
       is_error 500 "FETCH_ERROR" "Erro ao buscar cachorro" r) /\
    (Response.status r = 404 <-> dogs w !! id = None /\ is_uuid id = true).
Proof.
  unfold Routes.get_by_id, DogService.findById, res_json, res_status_json. run.
  destruct (dogs w !! id) as [d|]; cbn [fmap option_fmap option_map];
    [|destruct (is_uuid id)];
    eexists _, _; (split; [reflexivity|]); cbn [logged log snd dogs users];
    (split; [reflexivity|]); (split; [reflexivity|]); cbn [Response.status].
  - split; [now intros d' [= <-]|]. split; [discriminate|]. split; [discriminate|].
    split; [discriminate|]. now intros [[=] _].
  - split; [discriminate|]. split; [intros _ _; split; reflexivity|].
    split; [discriminate|]. split; auto.
  - split; [discriminate|]. split; [discriminate|].
    split; [intros _ _; split; reflexivity|]. split; [discriminate|]. now intros [_ [=]].
Qed.

(** X21.  GET /api/dogs/map with one of the four bounds missing or empty
    ignores the bounds it was given: the answer is status 200 with the
    markers of the (at most 100) newest rows of the whole table. *)
Theorem get_map_partial_bounds (query : MapQuery.t) (w : World) :
  JS.truthy (MapQuery.north query) && JS.truthy (MapQuery.south query)
  && JS.truthy (MapQuery.east query) && JS.truthy (MapQuery.west query) = false ->
  exists markers w',
    get_map query w =
      (Return {| Response.status := 200; Response.body := json markers |}, w') /\
    markers =
      (Routes.map_marker ∘ select_marker w) <$> take 100 (order_rows (next_query w) (Some desc) (rows w)) /\
    get_map query w =
    get_map {| MapQuery.north := None; MapQuery.south := None;
               MapQuery.east := None; MapQuery.west := None |} w.
Proof.
  intros Hpartial.
  assert (Hrun : forall q, Routes.map_bounds parseFloat q = None ->
    get_map q w =
      (Return {| Response.status := 200;
                 Response.body := json ((Routes.map_marker ∘ select_marker w) <$>
                   take 100 (order_rows (next_query w) (Some desc) (rows w))) |},
       logged (dog_findMany
         {| FindManyArgs.where_ := Some DogWhereInput.empty;
            FindManyArgs.orderBy := Some desc;
            FindManyArgs.skip := None;
            FindManyArgs.take := Some 100 |}) w)).
  { intros q Hq. unfold Routes.get_map, DogService.getForMap, res_json, res_status_json.
    rewrite Hq. steps. cbn [DogService.map_where].
    rewrite prisma_dog_findMany_eq by (cbn; lia).
    cbn [FindManyArgs.where_ FindManyArgs.orderBy FindManyArgs.skip FindManyArgs.take
         default window from_option Z.leb Z.compare].
    change (drop (Z.to_nat 0) ?l) with l. change (Z.to_nat 100) with 100%nat.
    rewrite select_rows_empty. fold (rows w). rewrite <- list_fmap_compose.
    reflexivity. }
  rewrite !Hrun; [eauto| reflexivity |].
  unfold Routes.map_bounds. cbv zeta. now rewrite Hpartial.
Qed.

Lemma search_no_radius (filters : SearchFilters.t) (w : World) :
  match SearchFilters.latitude filters, SearchFilters.longitude filters,
        SearchFilters.radiusKm filters with
  | Some _, Some _, Some _ => False
  | _, _, _ => True
  end ->
  DogService.search filters w =
  (Return (include_user select_id_name w <$>
           order_rows (next_query w) (Some desc)
             (select_rows (Some (DogService.search_where filters)) (dogs w))),
   logged (dog_findMany
     {| FindManyArgs.where_ := Some (DogService.search_where filters);
        FindManyArgs.orderBy := Some desc;
        FindManyArgs.skip := None;
        FindManyArgs.take := None |}) w).
Proof.
  intros Hnone. rewrite search_eq.
  destruct (SearchFilters.latitude filters), (SearchFilters.longitude filters),
    (SearchFilters.radiusKm filters); try reflexivity. destruct Hnone.
Qed.

(** X22.  GET /api/dogs/search filters by distance only when [lat], [lng]
    and [radius] are all given and non-empty: with one of them missing or
    empty the answer is the one to the same request without any of the
    three, status 200 with every row that passes the text filters (compared
    after the case folding of the database, whatever it is), newest first. *)
Theorem get_search_radius_needs_all_three (query : SearchQuery.t) (w : World) :
  JS.truthy (SearchQuery.lat query) && JS.truthy (SearchQuery.lng query)
  && JS.truthy (SearchQuery.radius query) = false ->
  let filters := Routes.search_filters parseFloat query in
  exists result w',
    get_search query w =
      (Return {| Response.status := 200; Response.body := json result |}, w') /\
    StronglySorted newest_first (row <$> result) /\
    row <$> result ≡ₚ List.filter (text_filters_accept filters) (rows w) /\
    get_search query w =
    get_search {| SearchQuery.q := SearchQuery.q query;
                  SearchQuery.status := SearchQuery.status query;
                  SearchQuery.size := SearchQuery.size query;
                  SearchQuery.breed := SearchQuery.breed query;
                  SearchQuery.lat := None; SearchQuery.lng := None;
                  SearchQuery.radius := None |} w.
Proof.
  intros Hpartial filters.
  set (query' := {| SearchQuery.q := SearchQuery.q query;
                    SearchQuery.lat := None |}).
  assert (Hwhere : DogService.search_where (Routes.search_filters parseFloat query') =
                   DogService.search_where filters) by reflexivity.
  assert (Hrun : forall q,
    JS.truthy (SearchQuery.lat q) && JS.truthy (SearchQuery.lng q)
    && JS.truthy (SearchQuery.radius q) = false ->
    get_search q w =
      (Return {| Response.status := 200;
                 Response.body := json (include_user select_id_name w <$>
                   order_rows (next_query w) (Some desc)
                     (select_rows (Some (DogService.search_where
                        (Routes.search_filters parseFloat q))) (dogs w))) |},
       logged (dog_findMany
         {| FindManyArgs.where_ :=
              Some (DogService.search_where (Routes.search_filters parseFloat q));
            FindManyArgs.orderBy := Some desc;
            FindManyArgs.skip := None;
            FindManyArgs.take := None |}) w)).
  { intros q Hq. unfold Routes.get_search, res_json, res_status_json. steps.
    rewrite search_no_radius; [reflexivity|].
    unfold Routes.search_filters. cbv zeta.
    cbn [SearchFilters.latitude SearchFilters.longitude SearchFilters.radiusKm].
    destruct (JS.truthy (SearchQuery.lat q)), (JS.truthy (SearchQuery.lng q)),
      (JS.truthy (SearchQuery.radius q)); try exact I; discriminate. }
  rewrite (Hrun query Hpartial), (Hrun query' eq_refl), Hwhere.
  eexists _, _. split; [reflexivity|].
  rewrite row_include_user.
  split; [apply order_rows_desc_sorted|]. split; [|reflexivity].
  etransitivity; [apply order_rows_Permutation|].
  unfold select_rows, rows. cbn [if_present].
  erewrite filter_ext; [reflexivity|].
  intros d. apply matches_search_where.
Qed.

Lemma optionalAuthMiddleware_eq (authorization : option string) (w : World) :
  exists userId,
    Routes.optionalAuthMiddleware jwt_verify JWT_SECRET authorization w = (Return userId, w).
Proof.
  unfold Routes.optionalAuthMiddleware, prisma_user_findUnique. steps.
  destruct (_ && _); [|eauto].
  destruct (jwt_verify _ _) as [decoded|]; [|eauto].
  destruct (users w !! _); [eauto|].
  destruct (is_uuid _); eauto.
Qed.

Lemma get_list_eq (authorization page limit : option string) (w : World) :
  get_list authorization page limit w =
  try_catch
    (result ← DogService.findAll (Some (Routes.parseInt_or parseInt page 1))
                (Some (Routes.parseInt_or parseInt limit 50));
     res_json result)
    (fun _ => res_status_json 500 (error_json "LIST_ERROR" "Erro ao listar cachorros")) w.
Proof.
  unfold Routes.get_list.
  destruct (optionalAuthMiddleware_eq authorization w) as (userId & Hopt).
  unfold mbind at 1. unfold M_bind. rewrite Hopt. reflexivity.
Qed.

(** X23.  GET /api/dogs never asks for page 0 or for pages of size 0: a
    [page] or [limit] that is missing, no number, or zero is replaced by 1
    and by 50.  So a page that comes back (status 200) reports the page and
    the size asked for, both non-zero, and a whole number of pages; the
    only other answer is status 500 with code LIST_ERROR. *)
Theorem get_list_defaults (authorization page limit : option string) (w : World) :
  let p := Routes.parseInt_or parseInt page 1 in
  let l := Routes.parseInt_or parseInt limit 50 in
  p <> 0 /\ l <> 0 /\
  (page ≫= parseInt = None -> p = 1) /\ (limit ≫= parseInt = None -> l = 50) /\
  exists r w',
    get_list authorization page limit w = (Return r, w') /\
    dogs w' = dogs w /\ users w' = users w /\
    (is_error 500 "LIST_ERROR" "Erro ao listar cachorros" r \/
     exists result,
       r = {| Response.status := 200; Response.body := json result |} /\
       Pagination.page (DogPage.pagination result) = p /\
       Pagination.limit (DogPage.pagination result) = l /\
       Pagination.total (DogPage.pagination result) = Z.of_nat (length (rows w)) /\
       exists k, Pagination.totalPages (DogPage.pagination result) = Num.of_int k).
Proof.
  intros p l.
  assert (Hp : p <> 0).
  { unfold p, Routes.parseInt_or. destruct (page ≫= parseInt) as [n|]; [|discriminate].
    destruct (Z.eqb_spec n 0); [discriminate|assumption]. }
  assert (Hl : l <> 0).
  { unfold l, Routes.parseInt_or. destruct (limit ≫= parseInt) as [n|]; [|discriminate].
    destruct (Z.eqb_spec n 0); [discriminate|assumption]. }
  split; [exact Hp|]. split; [exact Hl|].
  split; [unfold p, Routes.parseInt_or; now intros ->|].
  split; [unfold l, Routes.parseInt_or; now intros ->|].
  rewrite get_list_eq. fold p l. unfold res_json, res_status_json, DogService.findAll.
  steps. unfold Promise_all. run. cbn [from_option id FindManyArgs.skip].
  destruct (Binary64.mul (Binary64.sub p 1) l <? 0).
  - eexists _, _. split; [reflexivity|]. split; [reflexivity|]. split; [reflexivity|].
    left. split; reflexivity.
  - eexists _, _. split; [reflexivity|]. split; [reflexivity|]. split; [reflexivity|].
    right. eexists. split; [reflexivity|].
    cbn [DogPage.pagination Pagination.page Pagination.limit Pagination.total
         Pagination.totalPages].
    split; [reflexivity|]. split; [reflexivity|].
    split; [now rewrite rows_size|].
    unfold Num.div. rewrite (proj2 (Z.eqb_neq l 0) Hl). cbn [Num.Math_ceil]. eauto.
Qed.

(** X24.  [optionalAuthMiddleware] never stands in the way: GET /api/dogs
    answers the same, and leaves the same behind, whatever the
    Authorization header, valid, invalid or missing. *)
Theorem get_list_ignores_authorization (authorization page limit : option string)
    (w : World) :
  get_list authorization page limit w = get_list None page limit w.
Proof. now rewrite !get_list_eq. Qed.

End Routes_facts.

(** ** The owner's [update], and the key of the table *)

(** X25.  On a table keyed by id, the owner's [update] with a patch whose
    values fit their columns returns: each column of the stored row takes the
    value the patch gives it and keeps its own where the patch gives none,
    the id, the owner and the creation time stay, the calls made are the
    ownership lookup and the update, and [findById] then finds the record
    that was returned.  With a value longer than its column the update
    throws the database's P2000 and both tables stay as they were. *)
Theorem update_by_owner_applies (id userId : string) (input : UpdateDogInput.t)
    (w : World) (original : Dog.t) :
  primary_key (dogs w) ->
  dogs w !! id = Some original -> Dog.userId original = userId ->
  if update_fits input then
    exists updated w',
      DogService.update id userId input w = (Return updated, w') /\
      row updated = apply_update input (now w) original /\
      Dog.id (row updated) = id /\
      Dog.userId (row updated) = userId /\
      Dog.createdAt (row updated) = Dog.createdAt original /\
      dogs w' = <[id := row updated]> (dogs w) /\ users w' = users w /\
      new_calls w w' = [dog_findFirst (DogService.owned_by id userId); dog_update id input] /\
      fst (DogService.findById id w') = Return (Some updated)
  else
    exists w',
      DogService.update id userId input w
      = (Throw (PrismaClientKnownRequestError "P2000"), w') /\
      dogs w' = dogs w /\ users w' = users w.
Proof.
  intros Hpk Horig Hu.
  pose proof (findFirst_owner id userId w original Hpk Horig Hu) as Hsome.
  unfold DogService.update. run.
  destruct (head _) as [found|]; [|congruence]. cbn. rewrite Horig. cbn.
  destruct (update_fits input); cbn [negb].
  2:{ eexists. split; [reflexivity|]. split; reflexivity. }
  eexists _, _. split; [reflexivity|]. cbn [row].
  split; [reflexivity|]. split; [apply (Hpk _ _ Horig)|].
  split; [exact Hu|]. split; [reflexivity|]. split; [reflexivity|].
  split; [reflexivity|]. split.
  - unfold new_calls. cbn. rewrite <- app_assoc. apply drop_app_length.
  - unfold DogService.findById. run. rewrite lookup_insert_eq. reflexivity.
Qed.

Section Key_invariant.
Context {mlService : MLService}.

(** X26.  The three operations that write, [create], [update] and
    [delete], keep the table keyed by id: every row stays stored under its
    own id, whether the operation returns or throws. *)
Theorem writes_keep_primary_key (input : CreateDogInput.t) (patch : UpdateDogInput.t)
    (id userId : string) (w : World) :
  primary_key (dogs w) ->
  primary_key (dogs (snd (DogService.create input w))) /\
  primary_key (dogs (snd (DogService.update id userId patch w))) /\
  primary_key (dogs (snd (DogService.delete id userId w))).
Proof.
  intros Hpk. split; [|split; [apply update_primary_key, Hpk|apply delete_primary_key, Hpk]].
  destruct (prisma_dog_create (DogService.create_data input) with_owner w)
    as [[created|e] w1] eqn:Hcreate.
  2:{ assert (Hw1 : dogs w1 = dogs w)
        by apply (prisma_dog_create_Throw _ _ _ _ _ Hcreate).
      unfold DogService.create. steps. rewrite Hcreate. cbn. now rewrite Hw1. }
  rewrite (create_paths input w w1 created Hcreate).
  destruct (prisma_dog_create_Return _ _ _ _ _ Hcreate)
    as (Hfresh & Hrow & Huser & Hdogs & Husers & _ & _).
  assert (Hid : Dog.id (row created) = uuid w (issued w)) by (rewrite Hrow; reflexivity).
  assert (Hpk1 : primary_key (dogs w1)).
  { rewrite Hdogs, <- Hid. apply primary_key_insert, Hpk. }
  destruct (_ && _); [|exact Hpk1].
  destruct (predictBreed _ _) as [prediction|e]; [|exact Hpk1].
  destruct (JS.truthy _); [|exact Hpk1].
  destruct (prisma_dog_update _ _ _ _) as [[updated|e] w3] eqn:Hupdate.
  - apply prisma_dog_update_Return in Hupdate
      as (d & Hd & Hrow' & _ & Hdogs' & _). cbn [snd].
    cbn [logged log snd dogs] in Hd, Hdogs'. rewrite Hdogs'.
    replace (Dog.id (row created)) with (Dog.id (row updated)).
    + apply primary_key_insert, Hpk1.
    + rewrite Hrow'. cbn. apply (Hpk1 _ _ Hd).
  - apply prisma_dog_update_Throw in Hupdate as (_ & Hd & _). cbn [snd].
    cbn [logged log snd dogs] in Hd. now rewrite Hd.
Qed.

End Key_invariant.

End Service_facts.

(** * The sample data *)

#[local] Existing Instance Sample.database.

(** ** Checks on the sample data *)

Lemma Sample_rows : rows Sample.world = [Sample.stray; Sample.labrador; Sample.lab_mix].
Proof. vm_compute. reflexivity. Qed.

Example toRad_180 : toRad 180 = Math_PI.
Proof. reflexivity. Qed.

Example distance_Sao_Paulo_Rio :
  let d := calculateDistance (-23.5) (-46.625) (-22.90625) (-43.171875) in
  ((350 <? d) && (d <? 370))%float = true.
Proof. vm_compute. reflexivity. Qed.

Example search_Labrador_where :
  DogService.search_where
    (SearchFilters.with_query (Some "Labrador")
       (SearchFilters.with_breed None Sample.lab_poodle)) =
  DogWhereInput.set_OR
    [ DogWhereInput.set_description (contains_insensitive "Labrador") DogWhereInput.empty;
      DogWhereInput.set_breed (contains_insensitive "Labrador") DogWhereInput.empty;
      DogWhereInput.set_color (contains_insensitive "Labrador") DogWhereInput.empty ]
    DogWhereInput.empty.
Proof. reflexivity. Qed.

Example findAll_second_page_request :
  calls (snd (DogService.findAll (Some 2) (Some 50) Sample.world)) =
  [ dog_findMany {| FindManyArgs.where_ := None; FindManyArgs.orderBy := Some desc;
                    FindManyArgs.skip := Some 50; FindManyArgs.take := Some 50 |};
    dog_count ].
Proof. vm_compute. reflexivity. Qed.

Example findAll_skip_is_rounded :
  (94906268 - 1) * 94906267 = 9007199515875289 /\
  Binary64.mul (Binary64.sub 94906268 1) 94906267 = 9007199515875288.
Proof. split; reflexivity. Qed.

Example findAll_empty :
  exists w',
    DogService.findAll None None Sample.empty_world =
    (Return {| DogPage.dogs := [];
               DogPage.pagination :=
                 {| Pagination.page := 1; Pagination.limit := 50;
                    Pagination.total := 0; Pagination.totalPages := Num.of_int 0 |} |},
     w').
Proof. eexists. vm_compute. reflexivity. Qed.

Example search_zero_radius_returns_all :
  fst (DogService.search (Sample.around 0) Sample.world) =
  Return (include_user select_id_name Sample.world <$>
            [Sample.stray; Sample.lab_mix; Sample.labrador]).
Proof. vm_compute. reflexivity. Qed.

Example search_five_km :
  fst (DogService.search (Sample.around 5) Sample.world) =
  Return (include_user select_id_name Sample.world <$>
            [Sample.stray; Sample.labrador]).
Proof. vm_compute. reflexivity. Qed.

Example search_folds_accents :
  contains "ALEMÃO" (Some "Pastor alemão") = true /\
  contains "são" (Some "Visto em SÃO PAULO") = true /\
  contains "alemao" (Some "Pastor alemão") = false.
Proof. repeat split; vm_compute; reflexivity. Qed.

Example update_status_too_long :
  let input :=
    {| UpdateDogInput.description := None; UpdateDogInput.imageUrl := None;
       UpdateDogInput.latitude := None; UpdateDogInput.longitude := None;
       UpdateDogInput.breed := None; UpdateDogInput.color := None;
       UpdateDogInput.size := None;
       UpdateDogInput.status := Some "encontrado-e-devolvido" |} in
  char_length "encontrado-e-devolvido" = 22%nat /\
  fst (DogService.update Sample.d1 Sample.u1 input Sample.world)
    = Throw (PrismaClientKnownRequestError "P2000") /\
  dogs (snd (DogService.update Sample.d1 Sample.u1 input Sample.world)) = dogs Sample.world.
Proof. repeat split; vm_compute; reflexivity. Qed.

Example findById_malformed_id :
  fst (DogService.findById "abc" Sample.world)
    = Throw (PrismaClientKnownRequestError "P2023") /\
  fst (DogService.findById (Sample.uuid_v4 7) Sample.world) = Return None.
Proof. split; vm_compute; reflexivity. Qed.

Example get_by_id_malformed_id :
  fst (Routes.get_by_id "abc" Sample.world)
  = Return {| Response.status := 500;
              Response.body := error_json "FETCH_ERROR" "Erro ao buscar cachorro" |}.
Proof. vm_compute. reflexivity. Qed.

Example authMiddleware_unexpected_error :
  @Routes.authMiddleware _ Sample.jwt_verify None unit (Some "Bearer broken") Sample.world
  = (Return (responded {| Response.status := 500;
                          Response.body := error_json "AUTH_ERROR" "Erro na autenticação" |}),
     Sample.world).
Proof. vm_compute. reflexivity. Qed.

Example authMiddleware_invalid_token :
  @Routes.authMiddleware _ Sample.jwt_verify None unit (Some "Bearer forged") Sample.world
  = (Return (responded {| Response.status := 401;
                          Response.body := error_json "INVALID_TOKEN" "Token inválido" |}),
     Sample.world).
Proof. vm_compute. reflexivity. Qed.

Example authMiddleware_user_not_found :
  @Routes.authMiddleware _ Sample.jwt_verify None unit (Some "Bearer token-of-carol")
    Sample.world
  = (Return (responded {| Response.status := 401;
                          Response.body :=
                            error_json "UNAUTHORIZED" "Usuário não encontrado" |}),
     Sample.world).
Proof. vm_compute. reflexivity. Qed.

(** ** The claims on the sample data *)

Lemma calculateDistance_nan {math : MathObject} :
  calculateDistance nan nan nan nan = nan.
Proof.
  unfold calculateDistance.
  change (toRad (nan - nan)) with nan. change (nan / 2)%float with nan.
  rewrite sin_nan. change (nan * nan)%float with nan.
  rewrite add_nan_l. change (Math_sqrt nan) with nan.
  rewrite atan2_nan. reflexivity.
Qed.

(** C6 does not extend to every number: the distance from the point
    (NaN, NaN) to itself is NaN, not 0. *)
Lemma calculateDistance_same_point_counterexample :
  ~ (forall (math : MathObject) (lat lon : float),
       calculateDistance lat lon lat lon = 0%float).
Proof.
  intros Hzero. specialize (Hzero approx_Math nan nan).
  rewrite calculateDistance_nan in Hzero.
  apply (f_equal is_nan) in Hzero. discriminate Hzero.
Qed.

Lemma calculateDistance_same_point_witness :
  calculateDistance (-23.5) (-46.625) (-23.5) (-46.625) = 0%float.
Proof.
  apply (calculateDistance_same_point (math := approx_Math)); reflexivity.
Defined.

(** C1 does not hold for every radius that is present: searching around
    (-23.5, -46.625) with [radiusKm = 0], the radius filter is skipped and
    the sighting in Rio, some 360 km away, is returned. *)
Lemma search_radius_counterexample :
  ~ (forall (math : MathObject) (filters : SearchFilters.t) (w w' : World)
       (latitude longitude radiusKm : float) (result : list (DogWith UserIdName.t)),
       SearchFilters.latitude filters = Some latitude ->
       SearchFilters.longitude filters = Some longitude ->
       SearchFilters.radiusKm filters = Some radiusKm ->
       DogService.search filters w = (Return result, w') ->
       forall d, In d result ->
         (calculateDistance latitude longitude
            (Dog.latitude (row d)) (Dog.longitude (row d)) <=? radiusKm)%float = true).
Proof.
  intros Hall.
  pose proof (search_eq (math := approx_Math) (Sample.around 0) Sample.world) as Hs.
  cbv zeta in Hs.
  specialize (Hall approx_Math (Sample.around 0) Sample.world _ _ _ _ _
                eq_refl eq_refl eq_refl Hs
                (include_user select_id_name Sample.world Sample.lab_mix)).
  match type of Hall with
  | ?P -> _ => assert (Hin : P) by (vm_compute; auto)
  end.
  specialize (Hall Hin). vm_compute in Hall. discriminate Hall.
Qed.

Lemma search_within_radius_witness :
  exists result w',
    DogService.search (Sample.around 5) Sample.world = (Return result, w') /\
    forall d, In d result ->
      (calculateDistance (-23.5) (-46.625)
         (Dog.latitude (row d)) (Dog.longitude (row d)) <=? 5)%float = true.
Proof.
  apply (search_within_radius (math := approx_Math)); reflexivity.
Defined.

(** C3: a query does not suspend the breed filter.  With [query = "lab"]
    and [breed = "poodle"] the breed clause is compiled and applied: the two
    sightings that match the query are dropped because neither is a
    poodle. *)
Lemma search_breed_with_query_counterexample :
  JS.truthy (SearchFilters.query Sample.lab_poodle) = true /\
  DogWhereInput.breed (DogService.search_where Sample.lab_poodle)
    = Some (contains_insensitive "poodle") /\
  fst (DogService.search Sample.lab_poodle Sample.world) = Return [] /\
  fst (DogService.search (SearchFilters.with_breed None Sample.lab_poodle) Sample.world)
    = Return (include_user select_id_name Sample.world <$>
                [Sample.lab_mix; Sample.labrador]).
Proof. repeat split; vm_compute; reflexivity. Qed.

(** C2 does not hold for every page and page size: the offset is a product
    of binary64 numbers.  For page 94906268 and page size 94906267 the
    product 9007199515875289 lies above 2^53 and is rounded: the query
    skips 9007199515875288 rows, not (page - 1) * pageSize. *)
Lemma findAll_page_counterexample :
  1 <= 94906268 /\ 1 <= 94906267 /\
  (94906268 - 1) * 94906267 = 9007199515875289 /\
  exists result w',
    DogService.findAll (Some 94906268) (Some 94906267) Sample.world = (Return result, w') /\
    new_calls Sample.world w' =
      [ dog_findMany {| FindManyArgs.where_ := None;
                        FindManyArgs.orderBy := Some desc;
                        FindManyArgs.skip := Some 9007199515875288;
                        FindManyArgs.take := Some 94906267 |};
        dog_count ].
Proof.
  split; [lia|]. split; [lia|]. split; [reflexivity|].
  assert (Hskip : 0 <= Binary64.mul (Binary64.sub 94906268 1) 94906267) by now vm_compute.
  destruct (findAll_eq (Some 94906268) (Some 94906267) Sample.world Hskip)
    as (w' & Hrun & _).
  eexists _, w'. split; [exact Hrun|].
  pose proof (findAll_calls (Some 94906268) (Some 94906267) Sample.world Hskip) as Hcalls.
  rewrite Hrun in Hcalls. exact Hcalls.
Qed.

Lemma findAll_page_witness :
  exists result w',
    DogService.findAll (Some 2) (Some 2) Sample.world = (Return result, w') /\
    new_calls Sample.world w' =
      [ dog_findMany {| FindManyArgs.where_ := None;
                        FindManyArgs.orderBy := Some desc;
                        FindManyArgs.skip := Some ((2 - 1) * 2);
                        FindManyArgs.take := Some 2 |};
        dog_count ] /\
    dogs w' = dogs Sample.world /\
    let newest := order_rows (next_query Sample.world) (Some desc) (rows Sample.world) in
    StronglySorted newest_first newest /\ newest ≡ₚ rows Sample.world /\
    DogPage.dogs result =
      include_user select_id_name Sample.world <$>
        firstn (Z.to_nat 2) (drop (Z.to_nat ((2 - 1) * 2)) newest) /\
    (length (DogPage.dogs result) <= Z.to_nat 2)%nat /\
    Pagination.page (DogPage.pagination result) = 2 /\
    Pagination.limit (DogPage.pagination result) = 2 /\
    Pagination.total (DogPage.pagination result) = Z.of_nat (length (rows Sample.world)) /\
    (exists k,
       Pagination.totalPages (DogPage.pagination result) = Num.of_int k /\
       (k - 1) * 2 < Z.of_nat (length (rows Sample.world)) <= k * 2) /\
    (rows Sample.world = [] ->
       DogPage.dogs result = [] /\
       Pagination.totalPages (DogPage.pagination result) = Num.of_int 0).
Proof.
  apply (findAll_page (Some 2) (Some 2) Sample.world); cbn; lia.
Defined.

Lemma create_survives_failed_prediction_witness :
  exists created w1,
    prisma_dog_create (DogService.create_data Sample.sighting)
      (include_user select_id_name_email) Sample.world = (Return created, w1) /\
    let w' := logged (ml_predictBreed "https://example.com/dog.jpg"
                        (Dog.id (row created))) w1 in
    DogService.create (mlService := Sample.ml_rejecting) Sample.sighting Sample.world
      = (Return created, w') /\
    dogs w' = dogs w1 /\ users w' = users w1 /\
    new_calls w1 w' = [ml_predictBreed "https://example.com/dog.jpg"
                         (Dog.id (row created))].
Proof.
  let v := eval vm_compute in
    (prisma_dog_create (DogService.create_data Sample.sighting)
       (include_user select_id_name_email) Sample.world) in
  match v with
  | (Return ?created, ?w1) => exists created, w1
  end.
  assert (Hcreated :
    prisma_dog_create (DogService.create_data Sample.sighting)
      (include_user select_id_name_email) Sample.world = (Return _, _))
    by (vm_compute; reflexivity).
  split; [exact Hcreated|].
  apply (create_survives_failed_prediction (mlService := Sample.ml_rejecting)
           Sample.sighting _ _ _ eq_refl eq_refl Hcreated). exact I.
Defined.


Lemma update_preserves_owner_witness :
  exists updated w',
    DogService.update Sample.d1 Sample.u1 Sample.patch Sample.world = (Return updated, w') /\
    exists original,
      dogs Sample.world !! Sample.d1 = Some original /\
      dogs w' !! Sample.d1 = Some (row updated) /\
      Dog.userId (row updated) = Dog.userId original /\
      (primary_key (dogs Sample.world) -> Dog.userId original = Sample.u1).
Proof.
  let v := eval vm_compute in
    (DogService.update Sample.d1 Sample.u1 Sample.patch Sample.world) in
  match v with
  | (Return ?updated, ?w') => exists updated, w'
  end.
  assert (Hupdated :
    DogService.update Sample.d1 Sample.u1 Sample.patch Sample.world = (Return _, _))
    by (vm_compute; reflexivity).
  split; [exact Hupdated|].
  apply (update_preserves_owner Sample.d1 Sample.u1 Sample.patch Sample.world _ _ Hupdated).
Defined.

(** ** The further properties on the sample data *)

Lemma Sample_no_ties : no_ties Sample.world.
Proof.
  intros a b Ha Hb. rewrite Sample_rows in Ha, Hb.
  destruct Ha as [<-|[<-|[<-|[]]]], Hb as [<-|[<-|[<-|[]]]];
    first [reflexivity | intros H; discriminate H].
Qed.

Lemma Sample_world_primary_key : primary_key (dogs Sample.world).
Proof.
  apply (primary_key_insert _ Sample.labrador), (primary_key_insert _ Sample.lab_mix),
    (primary_key_insert _ Sample.stray).
  intros k d. rewrite lookup_empty. discriminate.
Qed.

Lemma create_with_predicted_breed_witness :
  exists created w1,
    prisma_dog_create (DogService.create_data Sample.sighting) with_owner Sample.world
      = (Return created, w1) /\
    exists updated w',
      DogService.create (mlService := Sample.ml_poodle) Sample.sighting Sample.world
        = (Return updated, w') /\
      Dog.breed (row updated) = Some "Poodle" /\
      same_sighting (row updated) (row created) /\
      user updated = user created /\
      dogs w' = <[Dog.id (row created) := row updated]> (dogs w1) /\
      new_calls w1 w' =
        [ ml_predictBreed "https://example.com/dog.jpg" (Dog.id (row created));
          dog_update (Dog.id (row created)) (UpdateDogInput.only_breed "Poodle") ].
Proof.
  let v := eval vm_compute in
    (prisma_dog_create (DogService.create_data Sample.sighting) with_owner Sample.world) in
  match v with
  | (Return ?created, ?w1) => exists created, w1
  end.
  assert (Hcreated :
    prisma_dog_create (DogService.create_data Sample.sighting) with_owner Sample.world
      = (Return _, _)) by (vm_compute; reflexivity).
  split; [exact Hcreated|].
  apply (create_with_predicted_breed (mlService := Sample.ml_poodle)
           Sample.sighting _ _ _ _ eq_refl eq_refl Hcreated eq_refl eq_refl eq_refl).
Defined.

Lemma create_then_findById_witness :
  exists dog w',
    DogService.create (mlService := Sample.ml_poodle) Sample.sighting Sample.world
      = (Return dog, w') /\
    fst (DogService.findById (Dog.id (row dog)) w') = Return (Some dog).
Proof.
  let v := eval vm_compute in
    (DogService.create (mlService := Sample.ml_poodle) Sample.sighting Sample.world) in
  match v with
  | (Return ?dog, ?w') => exists dog, w'
  end.
  assert (Hcreated :
    DogService.create (mlService := Sample.ml_poodle) Sample.sighting Sample.world
      = (Return _, _)) by (vm_compute; reflexivity).
  split; [exact Hcreated|].
  apply (create_then_findById (mlService := Sample.ml_poodle) _ _ _ _ Hcreated).
Defined.

Lemma delete_by_owner_witness :
  ((exists result w', DogService.delete Sample.d1 Sample.u1 Sample.world = (Return result, w')) <->
   (exists d, dogs Sample.world !! Sample.d1 = Some d /\ Dog.userId d = Sample.u1)) /\
  forall result w',
    DogService.delete Sample.d1 Sample.u1 Sample.world = (Return result, w') ->
    result = true /\
    dogs w' = delete Sample.d1 (dogs Sample.world) /\ users w' = users Sample.world /\
    new_calls Sample.world w' =
      [dog_findFirst (DogService.owned_by Sample.d1 Sample.u1); dog_delete Sample.d1] /\
    fst (DogService.findById Sample.d1 w') = Return None.
Proof.
  exact (delete_by_owner Sample.d1 Sample.u1 Sample.world Sample_world_primary_key).
Defined.

Lemma update_delete_local_witness :
  dogs (snd (DogService.update Sample.d1 Sample.u1 Sample.patch Sample.world)) !! Sample.d2
    = dogs Sample.world !! Sample.d2 /\
  dogs (snd (DogService.delete Sample.d1 Sample.u1 Sample.world)) !! Sample.d2
    = dogs Sample.world !! Sample.d2 /\
  users (snd (DogService.update Sample.d1 Sample.u1 Sample.patch Sample.world)) = users Sample.world /\
  users (snd (DogService.delete Sample.d1 Sample.u1 Sample.world)) = users Sample.world.
Proof.
  apply (update_delete_local Sample.d1 Sample.u1 Sample.patch Sample.world Sample.d2). discriminate.
Defined.

Lemma calculateDistance_any_NaN_witness :
  calculateDistance nan (-46.625) (-23.5) (-46.625) = nan /\
  (calculateDistance nan (-46.625) (-23.5) (-46.625) <=? 5)%float
    = false.
Proof.
  apply (calculateDistance_any_NaN (math := approx_Math) nan (-46.625) (-23.5) (-46.625) 5).
  reflexivity.
Defined.

Lemma search_NaN_witness :
  exists result w',
    DogService.search (math := approx_Math) Sample.around_nowhere Sample.world
      = (Return result, w') /\
    (forall d, In d result ->
       is_nan (Dog.latitude (row d)) = false /\ is_nan (Dog.longitude (row d)) = false) /\
    (is_nan nan || is_nan (-46.625) = true -> result = []).
Proof.
  apply (search_NaN (math := approx_Math) Sample.around_nowhere Sample.world
           nan (-46.625) 5); reflexivity.
Defined.

Lemma create_over_http_witness :
  exists created w1,
    prisma_dog_create (DogService.create_data Sample.sighting) with_owner Sample.world
      = (Return created, w1) /\
    exists dog w',
      DogService.create (mlService := http_MLService Sample.fetch_poodle)
        Sample.sighting Sample.world = (Return dog, w') /\
      same_sighting (row dog) (row created) /\
      Dog.breed (row dog) = Some "Poodle".
Proof.
  let v := eval vm_compute in
    (prisma_dog_create (DogService.create_data Sample.sighting) with_owner Sample.world) in
  match v with
  | (Return ?created, ?w1) => exists created, w1
  end.
  assert (Hcreated :
    prisma_dog_create (DogService.create_data Sample.sighting) with_owner Sample.world
      = (Return _, _)) by (vm_compute; reflexivity).
  split; [exact Hcreated|].
  apply (create_over_http Sample.fetch_poodle Sample.sighting _ _ _ Hcreated).
Defined.


Lemma findAll_pages_tile_witness :
  exists pages w',
    fetch_pages 2 1 2 Sample.world = (Return pages, w') /\
    dogs w' = dogs Sample.world /\
    (forall query,
       row <$> pages =
       take (2 * Z.to_nat 2) (order_rows query (Some desc) (rows Sample.world))) /\
    (Z.of_nat (length (rows Sample.world)) <= Z.of_nat 2 * 2 ->
       row <$> pages ≡ₚ rows Sample.world).
Proof.
  apply (findAll_pages_tile 2 2 Sample.world); [lia|now vm_compute|exact Sample_no_ties].
Defined.

Lemma guarded_routes_unauthenticated_witness :
  (exists r, Routes.get_my Sample.jwt_verify None (Some "Bearer broken") Sample.world
               = (Return r, Sample.world) /\
             (Response.status r = 401 \/ Response.status r = 500) /\
             exists code message, Response.body r = error_json code message) /\
  (exists r, Routes.delete_by_id Sample.jwt_verify None Sample.prisma_message
               (Some "Bearer broken") Sample.d1 Sample.world = (Return r, Sample.world) /\
             (Response.status r = 401 \/ Response.status r = 500) /\
             exists code message, Response.body r = error_json code message).
Proof.
  apply (guarded_routes_unauthenticated Sample.jwt_verify None Sample.prisma_message
           (Some "Bearer broken") Sample.d1 Sample.world).
  reflexivity.
Defined.


Lemma get_my_authenticated_witness :
  exists result w',
    Routes.get_my Sample.jwt_verify None (Some "Bearer token-of-alice") Sample.world =
      (Return {| Response.status := 200; Response.body := json result |}, w') /\
    dogs w' = dogs Sample.world /\ users w' = users Sample.world /\
    StronglySorted newest_first result /\
    result ≡ₚ List.filter (fun d => String.eqb Sample.u1 (Dog.userId d)) (rows Sample.world) /\
    forall d, In d result <-> In d (rows Sample.world) /\ Dog.userId d = Sample.u1.
Proof.
  apply (get_my_authenticated Sample.jwt_verify None
           (Some "Bearer token-of-alice") Sample.u1 Sample.world).
  reflexivity.
Defined.

Lemma get_map_partial_bounds_witness :
  exists markers w',
    Routes.get_map Sample.parseFloat Sample.three_bounds Sample.world =
      (Return {| Response.status := 200; Response.body := json markers |}, w') /\
    markers =
      (Routes.map_marker ∘ select_marker Sample.world) <$>
        take 100 (order_rows (next_query Sample.world) (Some desc) (rows Sample.world)) /\
    Routes.get_map Sample.parseFloat Sample.three_bounds Sample.world =
    Routes.get_map Sample.parseFloat
      {| MapQuery.north := None; MapQuery.south := None;
         MapQuery.east := None; MapQuery.west := None |} Sample.world.
Proof.
  apply (get_map_partial_bounds Sample.parseFloat Sample.three_bounds Sample.world).
  reflexivity.
Defined.

Lemma get_search_radius_needs_all_three_witness :
  let filters := Routes.search_filters Sample.parseFloat Sample.point_without_radius in
  exists result w',
    Routes.get_search (math := approx_Math) Sample.parseFloat
      Sample.point_without_radius Sample.world =
      (Return {| Response.status := 200; Response.body := json result |}, w') /\
    StronglySorted newest_first (row <$> result) /\
    row <$> result ≡ₚ List.filter (text_filters_accept filters) (rows Sample.world) /\
    Routes.get_search (math := approx_Math) Sample.parseFloat
      Sample.point_without_radius Sample.world =
    Routes.get_search (math := approx_Math) Sample.parseFloat
      {| SearchQuery.q := Some "lab"; SearchQuery.status := None;
         SearchQuery.size := None; SearchQuery.breed := None;
         SearchQuery.lat := None; SearchQuery.lng := None;
         SearchQuery.radius := None |} Sample.world.
Proof.
  apply (get_search_radius_needs_all_three (math := approx_Math) Sample.parseFloat
           Sample.point_without_radius Sample.world).
  reflexivity.
Defined.

Lemma update_by_owner_applies_witness :
  exists updated w',
    DogService.update Sample.d1 Sample.u1 Sample.patch Sample.world = (Return updated, w') /\
    row updated = apply_update Sample.patch (now Sample.world) Sample.labrador /\
    Dog.id (row updated) = Sample.d1 /\
    Dog.userId (row updated) = Sample.u1 /\
    Dog.createdAt (row updated) = Dog.createdAt Sample.labrador /\
    dogs w' = <[Sample.d1 := row updated]> (dogs Sample.world) /\
    users w' = users Sample.world /\
    new_calls Sample.world w' =
      [dog_findFirst (DogService.owned_by Sample.d1 Sample.u1); dog_update Sample.d1 Sample.patch] /\
    fst (DogService.findById Sample.d1 w') = Return (Some updated).
Proof.
  apply (update_by_owner_applies Sample.d1 Sample.u1 Sample.patch Sample.world Sample.labrador
           Sample_world_primary_key); reflexivity.
Defined.

Lemma writes_keep_primary_key_witness :
  primary_key (dogs (snd (DogService.create (mlService := Sample.ml_poodle)
                            Sample.sighting Sample.world))) /\
  primary_key (dogs (snd (DogService.update Sample.d1 Sample.u1 Sample.patch Sample.world))) /\
  primary_key (dogs (snd (DogService.delete Sample.d1 Sample.u1 Sample.world))).
Proof.
  apply (writes_keep_primary_key (mlService := Sample.ml_poodle)
           Sample.sighting Sample.patch Sample.d1 Sample.u1 Sample.world Sample_world_primary_key).
Defined.
